(** * usn-watcher: the NDJSON stream consumer of [examples/watch_stream.py]

    A shallow embedding of the two readers ([read_from_stdin],
    [read_from_named_pipe]) and of the reference handler ([handle_event]),
    followed by the properties of the stream-to-message reconstruction
    and dispatch loop.

    Conventions.
    - Python [bytes] are [list byte]; Python [str] is a list of Unicode code
      points ([list N]); JSON values are the inductive [PyVal].
    - An exception is a class and its [str()] text.  A computation that may
      raise returns a [result].
    - What the interpreter and its libraries do ([json.loads], the
      rendering of non-string values by [format], what [print] and the
      reads of the two transports give or raise, the user's handler) is a
      parameter; what the script itself does is a definition. *)

From Stdlib Require Import Strings.String Strings.Ascii Strings.Byte.
From Stdlib Require Import ZArith NArith List Floats.SpecFloat Lia.
From stdpp Require Import base option list countable gmap.
From Equations Require Import Equations.

Set Warnings "-register-all".
Local Open Scope N_scope.

(* ------------------------------------------------------------------ *)
(** ** Python data *)

Definition bytes := list byte.
Definition pystr := list N.

(** A [str] literal of the script, from its ASCII spelling. *)
Definition py (s : string) : pystr := map N_of_ascii (list_ascii_of_string s).

(** A [bytes] literal of the script. *)
Definition pyb (s : string) : bytes := list_byte_of_string s.

(** What [json.loads] can return: [None], [bool], [int], [float], [str],
    [list] and [dict] (keys are [str]). *)
Inductive PyVal : Type :=
| PNone
| PBool (b : bool)
| PInt (z : Z)
| PFloat (f : spec_float)
| PStr (s : list N)
| PList (l : list PyVal)
| PDict (d : gmap (list N) PyVal).

Definition type_name (v : PyVal) : string :=
  match v with
  | PNone => "NoneType"
  | PBool _ => "bool"
  | PInt _ => "int"
  | PFloat _ => "float"
  | PStr _ => "str"
  | PList _ => "list"
  | PDict _ => "dict"
  end.

(** Python truth value testing. *)
Definition truthy (v : PyVal) : bool :=
  match v with
  | PNone => false
  | PBool b => b
  | PInt z => negb (Z.eqb z 0)
  | PFloat (S754_zero _) => false
  | PFloat _ => true
  | PStr s => match s with [] => false | _ => true end
  | PList l => match l with [] => false | _ => true end
  | PDict d => negb (bool_decide (d = ∅))
  end.

(* ------------------------------------------------------------------ *)
(** ** Exceptions *)

(** The exception classes the script can meet.  [KeyboardInterrupt] and
    [SystemExit] derive from [BaseException] only; all the others derive
    from [Exception].  [JSONDecodeError], [UnicodeDecodeError] and
    [UnicodeEncodeError] are subclasses of [ValueError]; a plain
    [ValueError] is none of them. *)
Inductive exn_class : Set :=
| JSONDecodeError
| UnicodeDecodeError
| UnicodeEncodeError
| ValueError
| AttributeError
| TypeError
| KeyError
| RecursionError
| OSError
| pywintypes_error
| KeyboardInterrupt
| SystemExit.

Record exn : Type := Exn { exn_cls : exn_class; exn_str : pystr }.

Inductive result (A : Type) : Type :=
| Ok (a : A)
| Raise (e : exn).
Arguments Ok {A} a.
Arguments Raise {A} e.

Definition bind {A B} (m : result A) (k : A -> result B) : result B :=
  match m with
  | Ok a => k a
  | Raise e => Raise e
  end.

Notation "'let*' x ':=' m 'in' k" := (bind m (fun x => k))
  (at level 10, x name, m at level 100, k at level 200).

(** [isinstance(e, Exception)]. *)
Definition is_Exception (e : exn) : bool :=
  match exn_cls e with
  | KeyboardInterrupt | SystemExit => false
  | _ => true
  end.

(** [isinstance(e, json.JSONDecodeError)]. *)
Definition is_JSONDecodeError (e : exn) : bool :=
  match exn_cls e with
  | JSONDecodeError => true
  | _ => false
  end.

(** [isinstance(e, (json.JSONDecodeError, UnicodeDecodeError))]. *)
Definition is_decode_error (e : exn) : bool :=
  match exn_cls e with
  | JSONDecodeError | UnicodeDecodeError => true
  | _ => false
  end.

(* ------------------------------------------------------------------ *)
(** ** Strings and bytes *)

Definition nl : byte := x0a.

Definition is_nl (b : byte) : bool := Byte.eqb b nl.

Section ListOps.
Context {A : Type}.
Variable p : A -> bool.

(** Is there an element satisfying [p]? *)
Definition has : list A -> bool := existsb p.

(** [split_first l]: the elements before the first [p]-element and those
    after it; [None] when there is none. *)
Fixpoint split_first (l : list A) : option (list A * list A) :=
  match l with
  | [] => None
  | a :: t =>
      if p a then Some ([], t)
      else match split_first t with
           | Some (before, after) => Some (a :: before, after)
           | None => None
           end
  end.

(** The elements after the last [p]-element (all of [l] when there is
    none). *)
Fixpoint after_last (l : list A) : list A :=
  match l with
  | [] => []
  | a :: t => if has t then after_last t else if p a then t else a :: t
  end.

Fixpoint drop_leading (l : list A) : list A :=
  match l with
  | [] => []
  | a :: t => if p a then drop_leading t else l
  end.
End ListOps.

(** [str.isspace] on one code point. *)
Definition py_isspace (c : N) : bool :=
  ((9 <=? c) && (c <=? 13)) || ((28 <=? c) && (c <=? 32))
  || (c =? 133) || (c =? 160) || (c =? 5760)
  || ((8192 <=? c) && (c <=? 8202))
  || (c =? 8232) || (c =? 8233) || (c =? 8239) || (c =? 8287) || (c =? 12288).

(** [s.strip()]. *)
Definition strip (s : pystr) : pystr :=
  rev (drop_leading py_isspace (rev (drop_leading py_isspace s))).

Definition in_range (lo hi : N) (b : byte) : bool :=
  (lo <=? Byte.to_N b) && (Byte.to_N b <=? hi).

(** [bs.decode('utf-8')] with the default strict error handling: [None]
    stands for [UnicodeDecodeError].  Overlong forms, surrogates and code
    points above U+10FFFF are rejected. *)
Fixpoint decode_utf8 (bs : bytes) : option pystr :=
  match bs with
  | [] => Some []
  | b0 :: t0 =>
      let n0 := Byte.to_N b0 in
      if n0 <? 128 then
        cons n0 <$> decode_utf8 t0
      else if in_range 194 223 b0 then
        match t0 with
        | b1 :: t1 =>
            if in_range 128 191 b1
            then cons ((n0 - 192) * 64 + (Byte.to_N b1 - 128))
                   <$> decode_utf8 t1
            else None
        | _ => None
        end
      else if in_range 224 239 b0 then
        match t0 with
        | b1 :: b2 :: t2 =>
            let lo := if n0 =? 224 then 160 else 128 in
            let hi := if n0 =? 237 then 159 else 191 in
            if in_range lo hi b1 && in_range 128 191 b2
            then cons ((n0 - 224) * 4096 + (Byte.to_N b1 - 128) * 64
                       + (Byte.to_N b2 - 128)) <$> decode_utf8 t2
            else None
        | _ => None
        end
      else if in_range 240 244 b0 then
        match t0 with
        | b1 :: b2 :: b3 :: t3 =>
            let lo := if n0 =? 240 then 144 else 128 in
            let hi := if n0 =? 244 then 143 else 191 in
            if in_range lo hi b1 && in_range 128 191 b2 && in_range 128 191 b3
            then cons ((n0 - 240) * 262144 + (Byte.to_N b1 - 128) * 4096
                       + (Byte.to_N b2 - 128) * 64 + (Byte.to_N b3 - 128))
                   <$> decode_utf8 t3
            else None
        | _ => None
        end
      else None
  end.

(* ------------------------------------------------------------------ *)
(** ** The event handler, [handle_event] *)

(** [event.get(key, default)].  Only a [dict] has the method. *)
Definition dict_get (event : PyVal) (key : pystr) (dflt : PyVal)
  : result PyVal :=
  match event with
  | PDict d => Ok (default dflt (d !! key))
  | _ => Raise (Exn AttributeError
                  (py ("'" ++ type_name event
                       ++ "' object has no attribute 'get'")))
  end.

(** The four local variables bound by lines 77-80. *)
Record locals : Type := Locals {
  reasons : PyVal;
  filename : PyVal;
  timestamp : PyVal;
  is_dir : PyVal
}.

Definition handle_event_locals (event : PyVal) : result locals :=
  let* reasons := dict_get event (py "reasons") (PList []) in
  let* full_path := dict_get event (py "fullPath") PNone in
  let* filename :=
    if truthy full_path then Ok full_path
    else dict_get event (py "fileName") (PStr []) in
  let* timestamp := dict_get event (py "timestamp") (PStr []) in
  let* is_dir := dict_get event (py "isDirectory") (PBool false) in
  Ok (Locals reasons filename timestamp is_dir).

Definition pystr_eqb (s t : pystr) : bool := bool_decide (s = t).

Fixpoint is_prefix (needle s : pystr) : bool :=
  match needle, s with
  | [], _ => true
  | _ :: _, [] => false
  | a :: needle', b :: s' => (a =? b) && is_prefix needle' s'
  end.

Fixpoint is_substring (needle s : pystr) : bool :=
  is_prefix needle s
  || match s with
     | [] => false
     | _ :: s' => is_substring needle s'
     end.

(** [needle in container] for a [str] needle (messages as CPython 3.12
    words them). *)
Definition py_in (needle : pystr) (container : PyVal) : result bool :=
  match container with
  | PStr s => Ok (is_substring needle s)
  | PList l =>
      Ok (existsb (fun x => match x with
                            | PStr t => pystr_eqb t needle
                            | _ => false
                            end) l)
  | PDict d => Ok (bool_decide (is_Some (d !! needle)))
  | _ => Raise (Exn TypeError
                  (py ("argument of type '" ++ type_name container
                       ++ "' is not iterable")))
  end.

(** [filename.rsplit('.', 1)[-1]], reached only when ['.' in filename]. *)
Definition rsplit_dot_last (filename : PyVal) : result pystr :=
  match filename with
  | PStr s => Ok (after_last (N.eqb 46) s)
  | _ => Raise (Exn AttributeError
                  (py ("'" ++ type_name filename
                       ++ "' object has no attribute 'rsplit'")))
  end.

(** [timestamp[11:23]].  On a [dict] the subscript fails, in a way that
    depends on the interpreter: [dict_error] is what it raises. *)
Definition slice_11_23 (dict_error : exn) (timestamp : PyVal)
  : result PyVal :=
  match timestamp with
  | PStr s => Ok (PStr (take 12 (drop 11 s)))
  | PList l => Ok (PList (take 12 (drop 11 l)))
  | PDict _ => Raise dict_error
  | _ => Raise (Exn TypeError
                  (py ("'" ++ type_name timestamp
                       ++ "' object is not subscriptable")))
  end.

(** [f"{ext:6}"]: a [str] is left-aligned in a field of width 6. *)
Definition ljust6 (s : pystr) : pystr := s ++ repeat 32 (6 - length s)%nat.

(** What the handler takes from the interpreter it runs on.
    - [py_format v] is [format(v, '')] for a JSON value that is not a
      [str] (for a [str] it is the string itself).
    - [stdout_write line] is what [print(line)] does: standard output
      takes the line, or the call raises and nothing is written (a
      [UnicodeEncodeError] for a line that the encoding of standard output
      cannot take, such as one with a lone surrogate).
    - [dict_slice_error] is what subscripting a [dict] with a slice
      raises: a [TypeError] before Python 3.12, a [KeyError] since. *)
Record runtime : Type := Runtime {
  py_format : PyVal -> pystr;
  stdout_write : pystr -> result unit;
  dict_slice_error : exn
}.

Section Handler.
Variable rt : runtime.

Definition fmt (v : PyVal) : pystr :=
  match v with
  | PStr s => s
  | _ => py_format rt v
  end.

(** Lines 83-85 up to the call of [print]: the line to print, if any. *)
Definition handle_event_output (l : locals) : result (option pystr) :=
  let* close := py_in (py "CLOSE") (reasons l) in
  if close && negb (truthy (is_dir l)) then
    let* dotted := py_in (py ".") (filename l) in
    let* ext := if dotted then rsplit_dot_last (filename l) else Ok [] in
    let* ts := slice_11_23 (dict_slice_error rt) (timestamp l) in
    Ok (Some (py "[" ++ fmt ts ++ py "] " ++ ljust6 ext ++ py " "
              ++ fmt (filename l)))
  else Ok None.

(** The handler as the readers call it: its state is the list of lines
    that standard output has taken so far. *)
Definition handle_event (event : PyVal) (out : list pystr)
  : list pystr * result unit :=
  match (let* l := handle_event_locals event in handle_event_output l) with
  | Ok (Some line) =>
      match stdout_write rt line with
      | Ok _ => (out ++ [line], Ok tt)
      | Raise e => (out, Raise e)
      end
  | Ok None => (out, Ok tt)
  | Raise e => (out, Raise e)
  end.
End Handler.

(* ------------------------------------------------------------------ *)
(** ** The two readers *)

(** What a run lets the outside see: the handler being called with an
    event, and a line printed by the reader itself. *)
Inductive obs : Type :=
| Dispatched (event : PyVal)
| Printed (line : pystr).

Definition dispatched_of (t : list obs) : list PyVal :=
  omap (fun o => match o with
                 | Dispatched event => Some event
                 | Printed _ => None
                 end) t.

(** A value together with the equation that it is what was computed. *)
Definition inspect {A : Type} (a : A) : {b : A | a = b} := exist _ a eq_refl.

Section Readers.
(** The handler: any function of one event, with a state of its own,
    that returns or raises. *)
Context {HS : Type}.
Variable handler : PyVal -> HS -> HS * result unit.

(** [json.loads] on a [str]: the decoded value, or the exception it
    raises. *)
Variable json_loads : pystr -> result PyVal.

Record world : Type := World { trace : list obs; hstate : HS }.

Definition dispatched (w : world) : list PyVal := dispatched_of (trace w).

Definition print (line : pystr) (w : world) : world :=
  World (trace w ++ [Printed line]) (hstate w).

(** The call [handle_event(event)]. *)
Definition dispatch (event : PyVal) (w : world) : world * result unit :=
  let '(hs, r) := handler event (hstate w) in
  (World (trace w ++ [Dispatched event]) hs, r).

(** [try: body  except <caught>: pass]. *)
Definition except_pass (caught : exn -> bool) (r : world * result unit)
  : world * result unit :=
  match r with
  | (w, Raise e) => if caught e then (w, Ok tt) else r
  | _ => r
  end.

(** *** Option A: [read_from_stdin] *)

(** Lines 27-28. *)
Definition stdin_try (line : pystr) (w : world) : world * result unit :=
  match json_loads line with
  | Ok event => dispatch event w
  | Raise e => (w, Raise e)
  end.

(** Lines 23-30, the body of the [for] loop. *)
Definition stdin_line (line : pystr) (w : world) : world * result unit :=
  let line := strip line in
  match line with
  | [] => (w, Ok tt)
  | _ => except_pass is_JSONDecodeError (stdin_try line w)
  end.

(** What one step of the iteration [for line in sys.stdin] gives: the
    next line, or an exception of the read itself (a [UnicodeDecodeError]
    for bytes that are not in the encoding of standard input, a
    [KeyboardInterrupt]). *)
Inductive stdin_read : Type :=
| Line (line : pystr)
| StdinRaise (e : exn).

(** Lines 22-30 against a script of what standard input gives, the end
    of the script being the end of the stream: [Ok tt] when the stream
    ends, [Raise e] when [e] leaves the function.  The iteration is
    outside the [try]: what it raises leaves the function. *)
Fixpoint read_from_stdin (reads : list stdin_read) (w : world)
  : world * result unit :=
  match reads with
  | [] => (w, Ok tt)
  | StdinRaise e :: _ => (w, Raise e)
  | Line line :: rest =>
      match stdin_line line w with
      | (w', Ok _) => read_from_stdin rest w'
      | (w', Raise e) => (w', Raise e)
      end
  end.

(** *** Option B: [read_from_named_pipe] *)

(** Lines 61-62.  The text of the [UnicodeDecodeError] is never used:
    the exception is caught at line 63. *)
Definition pipe_try (line : bytes) (w : world) : world * result unit :=
  match decode_utf8 line with
  | None => (w, Raise (Exn UnicodeDecodeError []))
  | Some text =>
      match json_loads text with
      | Ok event => dispatch event w
      | Raise e => (w, Raise e)
      end
  end.

(** Lines 60-64. *)
Definition pipe_record (line : bytes) (w : world) : world * result unit :=
  except_pass is_decode_error (pipe_try line w).

(** Lines 58-64:
    [while b'\n' in buffer: line, buffer = buffer.split(b'\n', 1); ...].
    Returns the buffer as the loop leaves it. *)
Equations extraction_pass (buffer : bytes) (w : world)
  : bytes * world * result unit by wf (length buffer) lt :=
  extraction_pass buffer w with inspect (split_first is_nl buffer) := {
    | exist _ None _ => (buffer, w, Ok tt)
    | exist _ (Some (line, rest)) Hsplit with pipe_record line w := {
        | (w', Ok _) => extraction_pass rest w'
        | (w', Raise e) => (rest, w', Raise e) } }.
Next Obligation.
  clear -Hsplit. revert line rest Hsplit.
  induction buffer as [|b t IH]; intros line rest; simpl; [discriminate|].
  destruct (is_nl b).
  - intros [= _ <-]. lia.
  - destruct (split_first is_nl t) as [[line' rest']|]; [|discriminate].
    intros [= _ <-]. specialize (IH _ _ eq_refl). lia.
Qed.

(** What [win32file.ReadFile(handle, 65536)] does on one call. *)
Inductive read_result : Type :=
| ReadOk (data : bytes)
| ReadRaise (e : exn).

(** Lines 54-64, the body of the outer [try]. *)
Definition pipe_try_body (buffer : bytes) (w : world) (r : read_result)
  : bytes * world * result unit :=
  match r with
  | ReadOk data => extraction_pass (buffer ++ data) w
  | ReadRaise e => (buffer, w, Raise e)
  end.

(** How one turn of [while True] ends. *)
Inductive turn : Type :=
| Continue
| Break
| Propagate (e : exn).

Definition disconnect_message (e : exn) : pystr :=
  py "Pipe disconnected: " ++ exn_str e.

(** Lines 53-68, one turn of the [while True] loop. *)
Definition pipe_turn (buffer : bytes) (w : world) (r : read_result)
  : bytes * world * turn :=
  match pipe_try_body buffer w r with
  | (buffer', w', Ok _) => (buffer', w', Continue)
  | (buffer', w', Raise e) =>
      if is_Exception e
      then (buffer', print (disconnect_message e) w', Break)
      else (buffer', w', Propagate e)
  end.

(** Where a run of the loop stands once the given reads are used up. *)
Inductive status : Type :=
| Waiting               (* blocked in the next [ReadFile] *)
| Returned              (* left the loop by [break] *)
| Raised (e : exn).     (* an exception left the function *)

(** Lines 52-68 against a script of read results. *)
Fixpoint pipe_loop (reads : list read_result) (buffer : bytes) (w : world)
  : bytes * world * status :=
  match reads with
  | [] => (buffer, w, Waiting)
  | r :: rest =>
      match pipe_turn buffer w r with
      | (buffer', w', Continue) => pipe_loop rest buffer' w'
      | (buffer', w', Break) => (buffer', w', Returned)
      | (buffer', w', Propagate e) => (buffer', w', Raised e)
      end
  end.

Definition pipe_name : pystr := py "\\.\pipe\usn-watcher".

(** Lines 34-68.  [imported] is what the two imports do, [opened] what
    [CreateFile] does. *)
Definition read_from_named_pipe (imported opened : result unit)
    (reads : list read_result) (w : world) : bytes * world * status :=
  match imported with
  | Raise e => ([], w, Raised e)
  | Ok _ =>
      let w := print (py "Connecting to " ++ pipe_name ++ py "...") w in
      match opened with
      | Raise e => ([], w, Raised e)
      | Ok _ =>
          let w := print (py "Connected. Listening for events...") w in
          pipe_loop reads [] w
      end
  end.
(** *** Reference notions for the statements about the readers *)

(** The event a pipe record decodes to, when it is valid UTF-8 and
    valid JSON. *)
Definition decode_record (line : bytes) : option PyVal :=
  match decode_utf8 line with
  | Some text =>
      match json_loads text with
      | Ok event => Some event
      | Raise _ => None
      end
  | None => None
  end.

(** The event a line of standard input decodes to, when it is not blank
    and is valid JSON. *)
Definition decode_line (line : pystr) : option PyVal :=
  match strip line with
  | [] => None
  | text =>
      match json_loads text with
      | Ok event => Some event
      | Raise _ => None
      end
  end.

(** The event that one step of the iteration over standard input leads
    to. *)
Definition decode_read (r : stdin_read) : option PyVal :=
  match r with
  | Line line => decode_line line
  | StdinRaise _ => None
  end.

(** Handing complete records to lines 60-64 one after the other, until
    an exception gets past line 63. *)
Fixpoint process_records (records : list bytes) (w : world)
  : world * result unit :=
  match records with
  | [] => (w, Ok tt)
  | r :: rest =>
      match pipe_record r w with
      | (w', Ok _) => process_records rest w'
      | (w', Raise e) => (w', Raise e)
      end
  end.

(** What lines 66-68 make of the outcome of the [try] body. *)
Definition settle (x : world * result unit) : world * status :=
  match x with
  | (w, Ok _) => (w, Waiting)
  | (w, Raise e) =>
      if is_Exception e
      then (print (disconnect_message e) w, Returned)
      else (w, Raised e)
  end.

(** What a run of the loop shows from outside: the world and where the
    run stands (not the buffer). *)
Definition outcome (x : bytes * world * status) : world * status :=
  (x.1.2, x.2).

End Readers.

Arguments World {HS} trace hstate.
Arguments outcome {HS} x.
Arguments trace {HS} w.
Arguments hstate {HS} w.

(* ------------------------------------------------------------------ *)
(** ** Reference notions for the statements *)

(** [b"\n".join(records)]: [R1 + "\n" + R2 + "\n" + ... + Rn]. *)
Definition join_nl (records : list bytes) : bytes :=
  match records with
  | [] => []
  | r :: rest => r ++ flat_map (fun r' => nl :: r') rest
  end.

(** Every record followed by its newline. *)
Definition terminate_all (records : list bytes) : bytes :=
  flat_map (fun r => r ++ [nl]) records.

(** The newline-terminated records of a byte sequence, in order, and the
    bytes that follow its last newline. *)
Fixpoint frames (bs : bytes) : list bytes * bytes :=
  match bs with
  | [] => ([], [])
  | b :: t =>
      let '(records, rest) := frames t in
      if is_nl b then ([] :: records, rest)
      else match records with
           | [] => ([], b :: rest)
           | r :: records' => ((b :: r) :: records', rest)
           end
  end.

(** The bytes after the last newline. *)
Definition after_last_nl : bytes -> bytes := after_last is_nl.

(** The whitespace that JSON allows around a value: space, tab, line
    feed, carriage return. *)
Definition json_space (c : N) : bool :=
  (c =? 32) || (c =? 9) || (c =? 10) || (c =? 13).

(** A record whose surrounding whitespace, if it has any, is JSON
    whitespace: what is left of it between the two is free of leading
    and trailing whitespace of any kind (and may be empty). *)
Definition json_padded (record : pystr) : Prop :=
  exists lead core trail,
    record = lead ++ core ++ trail
    /\ forallb json_space lead = true
    /\ forallb json_space trail = true
    /\ strip core = core.

(** Two answers that are the same value, or two exceptions of the same
    class. *)
Definition same_answer {A : Type} (r1 r2 : result A) : Prop :=
  match r1, r2 with
  | Ok a1, Ok a2 => a1 = a2
  | Raise e1, Raise e2 => exn_cls e1 = exn_cls e2
  | _, _ => False
  end.

(* ------------------------------------------------------------------ *)
(** ** The entry point *)

(** Line 89: [len(sys.argv) > 1 and sys.argv[1] == '--pipe']. *)
Definition pipe_selected (argv : list pystr) : bool :=
  (1 <? length argv)%nat
  && match argv !! 1%nat with
     | Some arg => pystr_eqb arg (py "--pipe")
     | None => false
     end.

Section Main.
Context {HS : Type}.
Variable handler : PyVal -> HS -> HS * result unit.
Variable json_loads : pystr -> result PyVal.

(** Which reader ran, and how its run ended. *)
Inductive ran : Type :=
| RanPipe (r : bytes * @world HS * status)
| RanStdin (r : @world HS * result unit).

(** Lines 88-92.  [reads] is what the pipe would deliver, [lines] what
    standard input would. *)
Definition main (argv : list pystr) (imported opened : result unit)
    (reads : list read_result) (lines : list stdin_read) (w : @world HS)
  : ran :=
  if pipe_selected argv
  then RanPipe (read_from_named_pipe handler json_loads imported opened reads w)
  else RanStdin (read_from_stdin handler json_loads lines w).
End Main.

(** The number of newline bytes in a byte sequence. *)
Definition count_nl (bs : bytes) : nat := length (List.filter is_nl bs).

(* ------------------------------------------------------------------ *)
(** ** Stand-ins used to run the readers on concrete input *)

(** A handler that keeps no state and always returns: with it the trace
    alone tells which events were dispatched. *)
Definition recorder (event : PyVal) (hs : unit) : unit * result unit :=
  (tt, Ok tt).

(** A handler that counts its calls and raises [JSONDecodeError] on a
    number, as a handler would that parses a payload of its own. *)
Definition fussy (event : PyVal) (calls : nat) : nat * result unit :=
  (S calls,
   match event with
   | PInt _ =>
       Raise (Exn JSONDecodeError (py "Extra data: line 1 column 2 (char 1)"))
   | _ => Ok tt
   end).

(** [json.loads] on the few texts the examples use. *)
Definition json_samples : list (pystr * PyVal) :=
  [ (py "{}", PDict ∅);
    (py "[]", PList []);
    (py "1", PInt 1);
    (py "2", PInt 2);
    (py "null", PNone) ].

Fixpoint lookup_sample (text : pystr) (samples : list (pystr * PyVal))
  : option PyVal :=
  match samples with
  | [] => None
  | (t, v) :: rest =>
      if pystr_eqb t text then Some v else lookup_sample text rest
  end.

(** A table-driven [json.loads]: it answers as the library does on the
    texts of [json_samples], and raises the library's [JSONDecodeError] on
    any other text.  The other texts that the examples below feed it are
    not JSON and do not begin like a JSON value, for which this is the
    library's answer too. *)
Definition json_loads_sample (text : pystr) : result PyVal :=
  match lookup_sample text json_samples with
  | Some v => Ok v
  | None => Raise (Exn JSONDecodeError
                     (py "Expecting value: line 1 column 1 (char 0)"))
  end.

(** A line of one thousand opening brackets: it is not JSON, and the
    library's decoder gives up on its depth before it finds that out. *)
Definition deep_text : pystr := repeat 91 1000%nat.

Definition deep_bytes : bytes := repeat x5b 1000%nat.

(** [json.loads] on the texts of [json_samples] and on [deep_text]. *)
Definition json_loads_deep (text : pystr) : result PyVal :=
  if pystr_eqb text deep_text
  then Raise (Exn RecursionError
                (py "maximum recursion depth exceeded"
                 ++ py " while decoding a JSON array from a unicode string"))
  else json_loads_sample text.

(** [json.loads] on the texts of [json_samples] with JSON whitespace
    around them, which the library skips. *)
Definition json_loads_padded (text : pystr) : result PyVal :=
  json_loads_sample
    (rev (drop_leading json_space (rev (drop_leading json_space text)))).

(** A handler that counts its calls and raises [UnicodeDecodeError] on a
    number, as a handler would that decodes a payload of its own. *)
Definition touchy (event : PyVal) (calls : nat) : nat * result unit :=
  (S calls,
   match event with
   | PInt _ =>
       Raise (Exn UnicodeDecodeError
                (py "'utf-8' codec can't decode byte 0xff in position 0: "
                 ++ py "invalid start byte"))
   | _ => Ok tt
   end).

(** A stand-in for the interpreter's rendering of non-string values. *)
Definition no_format (v : PyVal) : pystr := [].

(** Is the code point a surrogate (U+D800 to U+DFFF)? *)
Definition is_surrogate (c : N) : bool := (55296 <=? c) && (c <=? 57343).

(** An interpreter whose standard output is UTF-8: it takes every line
    but one with a surrogate in it, on which it raises (the text of the
    exception is abridged); it is Python 3.12 or later. *)
Definition utf8_stdout : runtime :=
  Runtime no_format
    (fun line =>
       if existsb is_surrogate line
       then Raise (Exn UnicodeEncodeError (py "surrogates not allowed"))
       else Ok tt)
    (Exn KeyError (py "slice(11, 23, None)")).

(** An interpreter whose standard output takes every line (and which is
    Python 3.12 or later). *)
Definition plain : runtime :=
  Runtime no_format (fun _ => Ok tt) (Exn KeyError (py "slice(11, 23, None)")).

(** The two events of the specification's example scenario: a file save
    and a directory change. *)
Definition event_file_save : PyVal :=
  PDict (list_to_map
           [ (py "reasons", PList [PStr (py "CLOSE")]);
             (py "fullPath", PStr (py "C:\a.txt"));
             (py "timestamp", PStr (py "2024-01-01T00:00:00.1234567Z"));
             (py "isDirectory", PBool false) ]).

Definition event_directory : PyVal :=
  PDict (list_to_map
           [ (py "reasons", PList [PStr (py "CLOSE")]);
             (py "fullPath", PStr (py "C:\b"));
             (py "isDirectory", PBool true) ]).

Section Framing.
Implicit Types (bs buffer line rest : bytes) (records : list bytes).

Lemma is_nl_true b : is_nl b = true <-> b = nl.
Proof.
  unfold is_nl. split.
  - apply byte_dec_bl.
  - intros ->. reflexivity.
Qed.

Lemma is_nl_false b : is_nl b = false -> nl ≠ b.
Proof.
  intros E <-. rewrite (proj2 (is_nl_true nl) eq_refl) in E. discriminate.
Qed.

Lemma has_nl_elem bs : has is_nl bs = true <-> nl ∈ bs.
Proof.
  unfold has. induction bs as [|b t IH]; simpl.
  - split; [discriminate | intros H; inversion H].
  - rewrite orb_true_iff, IH, is_nl_true, elem_of_cons.
    split; intros [H|H]; auto.
Qed.

Lemma has_nl_false bs : has is_nl bs = false <-> nl ∉ bs.
Proof.
  rewrite <- has_nl_elem. destruct (has is_nl bs); split; congruence.
Qed.

Lemma split_first_None bs :
  split_first is_nl bs = None <-> nl ∉ bs.
Proof.
  rewrite <- has_nl_false. unfold has.
  induction bs as [|b t IH]; simpl; [tauto|].
  destruct (is_nl b); simpl; [split; discriminate|].
  destruct (split_first is_nl t) as [[? ?]|].
  - split; [discriminate|]. intros H. apply IH in H. discriminate.
  - tauto.
Qed.

(** [buffer.split(b'\n', 1)] cuts at the first newline. *)
Lemma split_first_Some bs line rest :
  split_first is_nl bs = Some (line, rest) ->
  bs = line ++ nl :: rest /\ nl ∉ line.
Proof.
  revert line rest.
  induction bs as [|b t IH]; intros line rest; simpl; [discriminate|].
  destruct (is_nl b) eqn:Hb.
  - intros [= <- <-]. apply is_nl_true in Hb as ->.
    split; [reflexivity | apply not_elem_of_nil].
  - destruct (split_first is_nl t) as [[l r]|]; [|discriminate].
    intros [= <- <-]. destruct (IH _ _ eq_refl) as [-> Hl].
    split; [reflexivity|].
    rewrite not_elem_of_cons. split; [by apply is_nl_false | assumption].
Qed.

Lemma frames_no_nl bs : nl ∉ bs -> frames bs = ([], bs).
Proof.
  induction bs as [|b t IH]; [reflexivity|].
  rewrite not_elem_of_cons. intros [Hb Ht]. simpl.
  rewrite (IH Ht).
  destruct (is_nl b) eqn:E; [|reflexivity].
  apply is_nl_true in E. congruence.
Qed.

Lemma frames_cons_line line rest :
  nl ∉ line ->
  frames (line ++ nl :: rest) = (line :: (frames rest).1, (frames rest).2).
Proof.
  induction line as [|b t IH]; simpl.
  - intros _. destruct (frames rest). reflexivity.
  - rewrite not_elem_of_cons. intros [Hb Ht].
    rewrite (IH Ht).
    destruct (is_nl b) eqn:E; [|reflexivity].
    apply is_nl_true in E. congruence.
Qed.

(** The loop's own split agrees with [frames]. *)
Lemma frames_split_first bs line rest :
  split_first is_nl bs = Some (line, rest) ->
  frames bs = (line :: (frames rest).1, (frames rest).2).
Proof.
  intros H. apply split_first_Some in H as [-> Hl].
  by apply frames_cons_line.
Qed.

Lemma frames_rest_no_nl bs : nl ∉ (frames bs).2.
Proof.
  induction bs as [|b t IH]; simpl; [apply not_elem_of_nil|].
  destruct (frames t) as [records rest]. simpl in IH.
  destruct (is_nl b) eqn:E; [assumption|].
  destruct records; simpl; [|assumption].
  rewrite not_elem_of_cons. split; [by apply is_nl_false | assumption].
Qed.


(** No byte is lost: the records with their delimiters, then the rest. *)
Lemma frames_conservation bs :
  bs = terminate_all (frames bs).1 ++ (frames bs).2.
Proof.
  induction bs as [|b t IH]; simpl; [reflexivity|].
  destruct (frames t) as [records rest]. simpl in IH.
  destruct (is_nl b) eqn:E; simpl.
  - apply is_nl_true in E. subst b. f_equal. assumption.
  - destruct records as [|r records']; simpl in *; f_equal; assumption.
Qed.

Lemma frames_app bs1 bs2 :
  frames (bs1 ++ bs2)
  = ((frames bs1).1 ++ (frames ((frames bs1).2 ++ bs2)).1,
     (frames ((frames bs1).2 ++ bs2)).2).
Proof.
  induction bs1 as [|b t IH]; simpl.
  - destruct (frames bs2). reflexivity.
  - rewrite IH. destruct (frames t) as [records rest]. simpl.
    destruct (is_nl b) eqn:E; simpl; [reflexivity|].
    destruct records as [|r records']; simpl; [|reflexivity].
    rewrite E. destruct (frames (rest ++ bs2)) as [records2 rest2].
    simpl. destruct records2; reflexivity.
Qed.

Lemma frames_terminate_all records bs :
  Forall (fun r => nl ∉ r) records ->
  frames (terminate_all records ++ bs)
  = (records ++ (frames bs).1, (frames bs).2).
Proof.
  induction 1 as [|r records Hr _ IH]; simpl.
  - destruct (frames bs). reflexivity.
  - rewrite <- !app_assoc. simpl.
    rewrite (frames_cons_line _ _ Hr), IH. reflexivity.
Qed.

Lemma join_nl_snoc records r :
  join_nl (records ++ [r]) = terminate_all records ++ r.
Proof.
  destruct records as [|r0 records]; simpl; [by rewrite app_nil_r|].
  assert (forall rs, flat_map (fun r' : bytes => nl :: r') (rs ++ [r])
                     = nl :: terminate_all rs ++ r) as Hflat.
  { induction rs as [|r1 rs IH]; simpl; [by rewrite app_nil_r|].
    rewrite IH. unfold terminate_all. simpl.
    by rewrite <- !app_assoc. }
  rewrite Hflat, <- !app_assoc. reflexivity.
Qed.

Lemma frames_join_nl records r :
  Forall (fun r' => nl ∉ r') records -> nl ∉ r ->
  frames (join_nl (records ++ [r])) = (records, r).
Proof.
  intros Hrs Hr.
  rewrite join_nl_snoc, (frames_terminate_all _ _ Hrs), (frames_no_nl _ Hr).
  simpl. by rewrite app_nil_r.
Qed.

Lemma after_last_no_nl bs : nl ∉ bs -> after_last_nl bs = bs.
Proof.
  unfold after_last_nl.
  induction bs as [|b t IH]; [reflexivity|].
  rewrite not_elem_of_cons. intros [Hb Ht]. simpl.
  rewrite (proj2 (has_nl_false t) Ht).
  destruct (is_nl b) eqn:E; [|reflexivity].
  apply is_nl_true in E. congruence.
Qed.

(** What [frames] leaves over is what follows the last newline. *)
Lemma frames_rest_after_last bs : (frames bs).2 = after_last_nl bs.
Proof.
  unfold after_last_nl.
  induction bs as [|b t IH]; [reflexivity|]. simpl.
  destruct (has is_nl t) eqn:Ht.
  - rewrite <- IH. apply has_nl_elem in Ht.
    destruct (frames t) as [records rest] eqn:Hf. simpl.
    destruct (is_nl b); [reflexivity|].
    destruct records; [|reflexivity].
    exfalso. pose proof (frames_conservation t) as Hc.
    pose proof (frames_rest_no_nl t) as Hn.
    rewrite Hf in Hc, Hn. simpl in Hc, Hn. congruence.
  - apply has_nl_false in Ht. rewrite (frames_no_nl _ Ht).
    destruct (is_nl b) eqn:E; reflexivity.
Qed.
End Framing.


Section Stripping.
Context {A : Type}.
Variable p : A -> bool.

Lemma drop_leading_length (l : list A) :
  (length (drop_leading p l) <= length l)%nat.
Proof.
  induction l as [|a t IH]; simpl; [lia|].
  destruct (p a); simpl; lia.
Qed.

Lemma drop_leading_same_length (l : list A) :
  length (drop_leading p l) = length l -> drop_leading p l = l.
Proof.
  destruct l as [|a t]; simpl; [reflexivity|].
  destruct (p a); [|reflexivity].
  pose proof (drop_leading_length t). lia.
Qed.
End Stripping.

(** A string that [strip] leaves alone begins and ends with a code point
    that is not whitespace. *)
Lemma strip_fixed (s : pystr) :
  strip s = s ->
  drop_leading py_isspace s = s
  /\ drop_leading py_isspace (rev s) = rev s.
Proof.
  unfold strip. intros H.
  assert (drop_leading py_isspace s = s) as Hfront.
  { apply drop_leading_same_length.
    pose proof (drop_leading_length py_isspace s) as H1.
    pose proof (drop_leading_length py_isspace
                  (rev (drop_leading py_isspace s))) as H2.
    apply (f_equal (@length N)) in H.
    rewrite !length_rev in *. lia. }
  split; [exact Hfront|].
  rewrite Hfront in H. rewrite <- H at 2. by rewrite rev_involutive.
Qed.

(** Reading such a string with its newline and stripping gives it back. *)
Lemma strip_line (s : pystr) :
  strip s = s -> s <> [] -> strip (s ++ [10]) = s.
Proof.
  intros H Hne. apply strip_fixed in H as [Hfront Hback].
  unfold strip.
  assert (drop_leading py_isspace (s ++ [10]) = s ++ [10]) as ->.
  { destruct s as [|c t]; [done|]. simpl in *.
    destruct (py_isspace c); [|reflexivity].
    pose proof (drop_leading_length py_isspace t) as Hlen.
    apply (f_equal (@length N)) in Hfront. simpl in Hfront. lia. }
  rewrite rev_unit. simpl. rewrite Hback. apply rev_involutive.
Qed.

Section Leading.
Context {A : Type}.
Variable p : A -> bool.

Lemma drop_leading_all (l : list A) :
  forallb p l = true -> drop_leading p l = [].
Proof.
  induction l as [|a t IH]; simpl; [reflexivity|].
  destruct (p a); simpl; [exact IH | discriminate].
Qed.

Lemma drop_leading_nil (l : list A) :
  drop_leading p l = [] -> forallb p l = true.
Proof.
  induction l as [|a t IH]; simpl; [reflexivity|].
  destruct (p a); simpl; [exact IH | discriminate].
Qed.

Lemma drop_leading_app_all (l1 l2 : list A) :
  forallb p l1 = true -> drop_leading p (l1 ++ l2) = drop_leading p l2.
Proof.
  induction l1 as [|a t IH]; simpl; [reflexivity|].
  destruct (p a); simpl; [exact IH | discriminate].
Qed.

Lemma drop_leading_app_keep (l1 l2 : list A) :
  drop_leading p l1 <> [] ->
  drop_leading p (l1 ++ l2) = drop_leading p l1 ++ l2.
Proof.
  induction l1 as [|a t IH]; simpl; [done|].
  destruct (p a); [exact IH | reflexivity].
Qed.

Lemma forallb_rev (l : list A) : forallb p (rev l) = forallb p l.
Proof.
  induction l as [|a t IH]; simpl; [reflexivity|].
  rewrite forallb_app, IH. simpl. rewrite andb_true_r. apply andb_comm.
Qed.
End Leading.

(** Stripping with any notion of space removes what surrounds a text and
    nothing else. *)
Lemma strip_with_padded {A : Type} (p : A -> bool) (lead text trail : list A) :
  forallb p lead = true ->
  forallb p trail = true ->
  rev (drop_leading p (rev (drop_leading p (lead ++ text ++ trail))))
  = rev (drop_leading p (rev (drop_leading p text))).
Proof.
  intros Hlead Htrail.
  rewrite (drop_leading_app_all _ _ _ Hlead).
  destruct (drop_leading p text) as [|c rest] eqn:Htext.
  - rewrite (drop_leading_app_all _ _ _ (drop_leading_nil _ _ Htext)).
    by rewrite (drop_leading_all _ _ Htrail).
  - rewrite drop_leading_app_keep, Htext by (by rewrite Htext).
    rewrite rev_app_distr.
    rewrite drop_leading_app_all by (by rewrite forallb_rev).
    reflexivity.
Qed.


(** [strip] removes any whitespace around a text and nothing else. *)
Lemma strip_padded (lead text trail : pystr) :
  forallb py_isspace lead = true ->
  forallb py_isspace trail = true ->
  strip (lead ++ text ++ trail) = strip text.
Proof.
  intros Hlead Htrail. unfold strip.
  rewrite (drop_leading_app_all _ _ _ Hlead).
  destruct (drop_leading py_isspace text) as [|c rest] eqn:Htext.
  - rewrite (drop_leading_app_all _ _ _ (drop_leading_nil _ _ Htext)).
    by rewrite (drop_leading_all _ _ Htrail).
  - rewrite drop_leading_app_keep, Htext by (by rewrite Htext).
    rewrite rev_app_distr.
    rewrite drop_leading_app_all by (by rewrite forallb_rev).
    reflexivity.
Qed.

Section Dispatching.
Context {HS : Type}.
Variable handler : PyVal -> HS -> HS * result unit.
Variable json_loads : pystr -> result PyVal.

Local Abbreviation world := (@world HS).

Lemma process_records_app records1 records2 w :
  process_records handler json_loads (records1 ++ records2) w
  = match process_records handler json_loads records1 w with
    | (w', Ok _) => process_records handler json_loads records2 w'
    | (w', Raise e) => (w', Raise e)
    end.
Proof.
  revert w. induction records1 as [|r rs IH]; intros w; simpl; [reflexivity|].
  destruct (pipe_record handler json_loads r w) as [w' [[]|e]];
    [apply IH | reflexivity].
Qed.

(** One extraction pass hands exactly the complete records of the buffer
    to lines 60-64 and keeps what follows the last newline. *)
Lemma extraction_pass_frames buffer w :
  forall buffer' w' r,
    extraction_pass handler json_loads buffer w = (buffer', w', r) ->
    process_records handler json_loads (frames buffer).1 w = (w', r)
    /\ (r = Ok tt -> buffer' = (frames buffer).2).
Proof.
  funelim (extraction_pass handler json_loads buffer w);
    intros buffer' w1 r Hrun.
  - injection Hrun as <- <- <-.
    rewrite (frames_no_nl _ (proj1 (split_first_None _) e)). by split.
  - rewrite (frames_split_first _ _ _ Hsplit). simpl. rewrite Heq.
    by apply H.
  - rewrite (frames_split_first _ _ _ Hsplit). simpl. rewrite Heq.
    injection Hrun as <- <- <-.
    split; [reflexivity | discriminate].
Qed.

(** A run of the loop over chunks that all arrive: the turns hand the
    complete records of the whole byte stream to lines 60-64, whatever
    the chunk boundaries. *)
Lemma pipe_loop_chunks chunks :
  forall buffer w buffer' w' s,
    nl ∉ buffer ->
    pipe_loop handler json_loads (map ReadOk chunks) buffer w
    = (buffer', w', s) ->
    settle (process_records handler json_loads
              (frames (buffer ++ concat chunks)).1 w)
    = (w', s)
    /\ (s = Waiting -> buffer' = (frames (buffer ++ concat chunks)).2).
Proof.
  induction chunks as [|c cs IH]; intros buffer w buffer' w' s Hbuf; simpl.
  - intros [= <- <- <-]. rewrite app_nil_r, (frames_no_nl _ Hbuf). by split.
  - unfold pipe_turn, pipe_try_body.
    destruct (extraction_pass handler json_loads (buffer ++ c) w)
      as [[b1 w1] r1] eqn:Hpass.
    apply extraction_pass_frames in Hpass as [Hproc Hb1].
    rewrite app_assoc, frames_app. simpl.
    rewrite process_records_app, Hproc.
    destruct r1 as [[]|e].
    + specialize (Hb1 eq_refl). subst b1.
      apply IH, frames_rest_no_nl.
    + simpl. destruct (is_Exception e); intros [= <- <- <-];
        (split; [reflexivity | discriminate]).
Qed.

Lemma dispatched_print line (w : world) :
  dispatched (print line w) = dispatched w.
Proof.
  unfold dispatched, dispatched_of, print. simpl.
  rewrite omap_app. simpl. by rewrite app_nil_r.
Qed.

Lemma dispatch_dispatched event (w w' : world) r :
  dispatch handler event w = (w', r) ->
  dispatched w' = dispatched w ++ [event].
Proof.
  unfold dispatch. destruct (handler event (hstate w)) as [hs r0].
  intros [= <- _]. unfold dispatched, dispatched_of. simpl.
  by rewrite omap_app.
Qed.

(** Lines 60-64 call the handler once when the record decodes, and not
    at all when it does not. *)
Lemma pipe_record_dispatched line (w w' : world) r :
  pipe_record handler json_loads line w = (w', r) ->
  dispatched w' = dispatched w ++ option_list (decode_record json_loads line).
Proof.
  unfold pipe_record, pipe_try, decode_record, except_pass.
  destruct (decode_utf8 line) as [text|]; simpl.
  - destruct (json_loads text) as [event|e]; simpl.
    + destruct (dispatch handler event w) as [w1 [[]|e]] eqn:Hd;
        [| destruct (is_decode_error e)]; intros [= <- _];
        exact (dispatch_dispatched _ _ _ _ Hd).
    + destruct (is_decode_error e); intros [= <- _]; by rewrite app_nil_r.
  - intros [= <- _]. by rewrite app_nil_r.
Qed.

Lemma process_records_dispatched records :
  forall (w w' : world) r,
    process_records handler json_loads records w = (w', r) ->
    exists done,
      done `prefix_of` records
      /\ dispatched w' = dispatched w ++ omap (decode_record json_loads) done
      /\ (r = Ok tt -> done = records).
Proof.
  induction records as [|line rest IH]; intros w w' r; simpl.
  - intros [= <- <-]. exists []. split; [done|].
    split; [by rewrite app_nil_r | done].
  - destruct (pipe_record handler json_loads line w) as [w1 [[]|e]] eqn:Hrec;
      apply pipe_record_dispatched in Hrec.
    + intros Hrest. apply IH in Hrest as (done & Hpre & Hdisp & Hall).
      exists (line :: done). split; [by apply prefix_cons|].
      split; [|intros Hr; f_equal; auto].
      rewrite Hdisp, Hrec, <- app_assoc. simpl.
      by destruct (decode_record json_loads line).
    + intros [= <- <-]. exists [line].
      split; [by apply prefix_cons, prefix_nil|].
      split; [|discriminate].
      rewrite Hrec. simpl. by destruct (decode_record json_loads line).
Qed.

(** Lines 23-30 call the handler once when the line decodes, and not at
    all when it does not. *)
Lemma stdin_line_dispatched line (w w' : world) r :
  stdin_line handler json_loads line w = (w', r) ->
  dispatched w' = dispatched w ++ option_list (decode_line json_loads line).
Proof.
  unfold stdin_line, stdin_try, decode_line, except_pass.
  destruct (strip line) as [|c text]; simpl.
  - intros [= <- _]. by rewrite app_nil_r.
  - destruct (json_loads (c :: text)) as [event|e]; simpl.
    + destruct (dispatch handler event w) as [w1 [[]|e]] eqn:Hd;
        [| destruct (is_JSONDecodeError e)]; intros [= <- _];
        exact (dispatch_dispatched _ _ _ _ Hd).
    + destruct (is_JSONDecodeError e); intros [= <- _]; by rewrite app_nil_r.
Qed.

Lemma omap_cons_list {A B : Type} (f : A -> option B) (x : A) (l : list A) :
  omap f (x :: l) = option_list (f x) ++ omap f l.
Proof.
  change (omap f (x :: l))
    with (match f x with Some y => y :: omap f l | None => omap f l end).
  by destruct (f x).
Qed.

Lemma read_from_stdin_dispatched reads :
  forall (w w' : world) r,
    read_from_stdin handler json_loads reads w = (w', r) ->
    exists done,
      done `prefix_of` reads
      /\ dispatched w' = dispatched w ++ omap (decode_read json_loads) done
      /\ (r = Ok tt -> done = reads).
Proof.
  induction reads as [|[line|e0] rest IH]; intros w w' r; simpl.
  - intros [= <- <-]. exists []. split; [done|].
    split; [by rewrite app_nil_r | done].
  - destruct (stdin_line handler json_loads line w) as [w1 [[]|e]] eqn:Hline;
      apply stdin_line_dispatched in Hline.
    + intros Hrest. apply IH in Hrest as (done & Hpre & Hdisp & Hall).
      exists (Line line :: done). split; [by apply prefix_cons|].
      split; [|intros Hr; f_equal; auto].
      by rewrite Hdisp, Hline, <- app_assoc, omap_cons_list.
    + intros [= <- <-]. exists [Line line].
      split; [by apply prefix_cons, prefix_nil|].
      split; [|discriminate].
      rewrite Hline, omap_cons_list. simpl. by rewrite app_nil_r.
  - intros [= <- <-]. exists []. split; [apply prefix_nil|].
    split; [by rewrite app_nil_r | discriminate].
Qed.

Lemma settle_waiting (x : world * result unit) (w' : world) :
  settle x = (w', Waiting) -> x = (w', Ok tt).
Proof.
  destruct x as [w1 [[]|e]]; simpl.
  - by intros [= <-].
  - destruct (is_Exception e); discriminate.
Qed.


(** Whenever the loop is back at [ReadFile], the buffer has no newline. *)
Lemma pipe_loop_waiting_no_nl reads :
  forall buffer (w : world) buffer' w',
    nl ∉ buffer ->
    pipe_loop handler json_loads reads buffer w = (buffer', w', Waiting) ->
    nl ∉ buffer'.
Proof.
  induction reads as [|r rs IH]; intros buffer w buffer' w' Hbuf; simpl.
  - by intros [= <- _].
  - unfold pipe_turn, pipe_try_body. destruct r as [data|e].
    + destruct (extraction_pass handler json_loads (buffer ++ data) w)
        as [[b1 w1] r1] eqn:Hpass.
      apply extraction_pass_frames in Hpass as [_ Hb1].
      destruct r1 as [[]|e].
      * rewrite (Hb1 eq_refl). apply IH, frames_rest_no_nl.
      * destruct (is_Exception e); discriminate.
    + destruct (is_Exception e); discriminate.
Qed.

(** If no exception gets past line 63 on any of the records, the loop
    comes back to [ReadFile] after the last chunk. *)
Lemma process_records_quiet records :
  forall w : world,
    Forall (fun line =>
              forall w0, (pipe_record handler json_loads line w0).2 = Ok tt)
           records ->
    exists w', process_records handler json_loads records w = (w', Ok tt).
Proof.
  induction records as [|line rest IH]; intros w Hq; simpl; [by eexists|].
  inversion Hq as [|? ? Hline Hrest]; subst.
  specialize (Hline w).
  destruct (pipe_record handler json_loads line w) as [w1 r].
  simpl in Hline. subst r. by apply IH.
Qed.

Lemma pipe_loop_total reads buffer (w : world) :
  exists buffer' w' s,
    pipe_loop handler json_loads reads buffer w = (buffer', w', s).
Proof.
  destruct (pipe_loop handler json_loads reads buffer w) as [[b' w'] s].
  by exists b', w', s.
Qed.

Lemma pipe_loop_outcome chunks (w : world) :
  outcome (pipe_loop handler json_loads (map ReadOk chunks) [] w)
  = settle (process_records handler json_loads (frames (concat chunks)).1 w).
Proof.
  destruct (pipe_loop handler json_loads (map ReadOk chunks) [] w)
    as [[buffer w'] s] eqn:Hrun.
  apply pipe_loop_chunks in Hrun as [Hsettle _]; [|apply not_elem_of_nil].
  simpl in Hsettle. by rewrite Hsettle.
Qed.

Lemma read_from_stdin_app lines1 lines2 :
  forall w : world,
    read_from_stdin handler json_loads (lines1 ++ lines2) w
    = match read_from_stdin handler json_loads lines1 w with
      | (w', Ok _) => read_from_stdin handler json_loads lines2 w'
      | (w', Raise e) => (w', Raise e)
      end.
Proof.
  induction lines1 as [|[l|e0] ls IH]; intros w; simpl;
    [reflexivity | | reflexivity].
  destruct (stdin_line handler json_loads l w) as [w' [[]|e]];
    [apply IH | reflexivity].
Qed.

(** A line whose JSON decoding fails leaves no mark. *)
Lemma stdin_line_skip line e (w : world) :
  json_loads (strip line) = Raise e ->
  is_JSONDecodeError e = true ->
  stdin_line handler json_loads line w = (w, Ok tt).
Proof.
  intros Hjson He. unfold stdin_line, stdin_try, except_pass.
  destruct (strip line) as [|c text]; [reflexivity|].
  rewrite Hjson, He. reflexivity.
Qed.

(** A record whose UTF-8 or JSON decoding fails leaves no mark. *)
Lemma pipe_record_skip line (w : world) :
  decode_utf8 line = None
  \/ (exists text e,
        decode_utf8 line = Some text
        /\ json_loads text = Raise e
        /\ is_JSONDecodeError e = true) ->
  pipe_record handler json_loads line w = (w, Ok tt).
Proof.
  unfold pipe_record, pipe_try, except_pass.
  intros [-> | (text & e & -> & -> & He)]; [reflexivity|].
  unfold is_JSONDecodeError in He. unfold is_decode_error.
  by destruct (exn_cls e).
Qed.

(** What lines 27-30 do with a line that decodes: the handler is called
    once, and only a [JSONDecodeError] of its own is swallowed. *)
Lemma stdin_line_decoded line event (w : world) hs r :
  decode_line json_loads line = Some event ->
  handler event (hstate w) = (hs, r) ->
  stdin_line handler json_loads line w
  = except_pass is_JSONDecodeError
      (World (trace w ++ [Dispatched event]) hs, r).
Proof.
  unfold decode_line, stdin_line, stdin_try, dispatch.
  destruct (strip line) as [|c text]; [discriminate|].
  destruct (json_loads (c :: text)) as [v|e]; [|discriminate].
  intros [= ->] ->. reflexivity.
Qed.


Lemma pipe_loop_dispatched chunks (w : world) :
  exists done,
    done `prefix_of` (frames (concat chunks)).1
    /\ dispatched (pipe_loop handler json_loads (map ReadOk chunks) [] w).1.2
       = dispatched w ++ omap (decode_record json_loads) done
    /\ ((pipe_loop handler json_loads (map ReadOk chunks) [] w).2 = Waiting ->
        done = (frames (concat chunks)).1).
Proof.
  pose proof (pipe_loop_outcome chunks w) as Hout. unfold outcome in Hout.
  destruct (pipe_loop handler json_loads (map ReadOk chunks) [] w)
    as [[buffer w'] s]. simpl in *.
  destruct (process_records handler json_loads (frames (concat chunks)).1 w)
    as [w1 r] eqn:Hproc.
  apply process_records_dispatched in Hproc as (done & Hpre & Hdisp & Hall).
  exists done. split; [assumption|].
  destruct r as [[]|e]; simpl in Hout.
  - injection Hout as -> ->. auto.
  - destruct (is_Exception e); injection Hout as -> ->;
      rewrite ?dispatched_print; (split; [assumption | discriminate]).
Qed.


End Dispatching.

(* ------------------------------------------------------------------ *)
(** ** Framing (Framed-Pipe Reader) *)

(** C1 (as amended).  Let the chunks concatenate to
    [R1 + "\n" + ... + R(n-1) + "\n" + Rn] with no newline inside any
    [Ri].  Whenever the accumulate-and-split loop is back at [ReadFile]
    after the last chunk, it has dispatched the events of exactly those of
    [R1 .. R(n-1)] (the newline-terminated records) that are valid UTF-8
    JSON, in that order, whatever the chunk boundaries, and [Rn], which is
    not newline-terminated, sits in the buffer, not dispatched.  The loop
    does come back to [ReadFile] when no exception gets past line 63 on
    any record. *)
Theorem framing_correctness {HS : Type}
    (handler : PyVal -> HS -> HS * result unit)
    (json_loads : pystr -> result PyVal)
    (chunks records : list bytes) (last : bytes) (w : @world HS) :
  Forall (fun r => nl ∉ r) records ->
  nl ∉ last ->
  concat chunks = join_nl (records ++ [last]) ->
  (forall buffer w',
     pipe_loop handler json_loads (map ReadOk chunks) [] w
     = (buffer, w', Waiting) ->
     dispatched w' = dispatched w ++ omap (decode_record json_loads) records
     /\ buffer = last)
  /\ (Forall (fun line =>
                forall w0, (pipe_record handler json_loads line w0).2 = Ok tt)
             records ->
      exists w',
        pipe_loop handler json_loads (map ReadOk chunks) [] w
        = (last, w', Waiting)).
Proof.
  intros Hrecords Hlast Hconcat.
  assert (frames ([] ++ concat chunks) = (records, last)) as Hframes.
  { simpl. rewrite Hconcat. by apply frames_join_nl. }
  split.
  - intros buffer w' Hrun.
    apply pipe_loop_chunks in Hrun as [Hsettle Hbuf];
      [|apply not_elem_of_nil].
    rewrite Hframes in Hsettle, Hbuf. simpl in Hsettle, Hbuf.
    apply settle_waiting in Hsettle.
    apply process_records_dispatched in Hsettle as (done & _ & Hdisp & Hall).
    rewrite (Hall eq_refl) in Hdisp. auto.
  - intros Hquiet.
    destruct (process_records_quiet handler json_loads records w Hquiet)
      as [w' Hproc].
    destruct (pipe_loop_total handler json_loads (map ReadOk chunks) [] w)
      as (buffer & w1 & s & Hrun).
    pose proof Hrun as Hrun'.
    apply pipe_loop_chunks in Hrun' as [Hsettle Hbuf];
      [|apply not_elem_of_nil].
    rewrite Hframes in Hsettle, Hbuf. simpl in Hsettle, Hbuf.
    rewrite Hproc in Hsettle. simpl in Hsettle.
    injection Hsettle as <- <-.
    exists w'. by rewrite Hrun, (Hbuf eq_refl).
Qed.

Lemma framing_correctness_witness :
  exists w',
    pipe_loop recorder json_loads_sample
      (map ReadOk [pyb "1"; [nl] ++ pyb "oo";
                   pyb "ps" ++ [nl] ++ pyb "2" ++ [nl]; pyb "{"])
      [] (World [] tt)
    = (pyb "{", w', Waiting)
    /\ dispatched w' = [PInt 1; PInt 2].
Proof.
  destruct (framing_correctness recorder json_loads_sample
              [pyb "1"; [nl] ++ pyb "oo"; pyb "ps" ++ [nl] ++ pyb "2" ++ [nl];
               pyb "{"]
              [pyb "1"; pyb "oops"; pyb "2"] (pyb "{") (World [] tt))
    as [Hdisp Hwait].
  - repeat constructor; apply has_nl_false; reflexivity.
  - apply has_nl_false; reflexivity.
  - reflexivity.
  - destruct Hwait as [w' Hrun].
    { repeat constructor; intros w0; reflexivity. }
    exists w'. split; [exact Hrun|].
    destruct (Hdisp _ _ Hrun) as [-> _]. reflexivity.
Defined.

(** C1, as stated, fails: the single chunk [{}] is the record [R1 = {}],
    valid UTF-8 JSON, and nothing is dispatched for it: it is not
    newline-terminated and stays in the buffer. *)
Lemma framing_unterminated_record_counterexample :
  let chunks := [pyb "{}"] in
  let records := [pyb "{}"] in
  concat chunks = join_nl records
  /\ Forall (fun r => nl ∉ r) records
  /\ omap (decode_record json_loads_sample) records = [PDict ∅]
  /\ pipe_loop recorder json_loads_sample (map ReadOk chunks) [] (World [] tt)
     = (pyb "{}", World [] tt, Waiting).
Proof.
  repeat split.
  repeat constructor; apply has_nl_false; reflexivity.
Qed.




(** C7.  Whenever the loop is back at [ReadFile], whatever was read, the
    frame buffer contains no newline byte; and an extraction pass that
    runs to its end leaves in the buffer just the bytes that followed the
    last newline, the incomplete trailing record. *)
Theorem buffer_invariant {HS : Type}
    (handler : PyVal -> HS -> HS * result unit)
    (json_loads : pystr -> result PyVal)
    (reads : list read_result) (w w' : @world HS) (buffer : bytes)
    (before after : bytes) (w1 w2 : @world HS) :
  pipe_loop handler json_loads reads [] w = (buffer, w', Waiting) ->
  extraction_pass handler json_loads before w1 = (after, w2, Ok tt) ->
  (nl ∉ buffer) /\ (nl ∉ after) /\ after = after_last_nl before.
Proof.
  intros Hrun Hpass. split.
  - eapply pipe_loop_waiting_no_nl; [apply not_elem_of_nil | exact Hrun].
  - apply extraction_pass_frames in Hpass as [_ Hafter].
    rewrite (Hafter eq_refl).
    split; [apply frames_rest_no_nl | apply frames_rest_after_last].
Qed.

Lemma buffer_invariant_witness :
  (nl ∉ pyb "}") /\ (nl ∉ pyb "ab")
  /\ pyb "ab" = after_last_nl (pyb "1" ++ [nl] ++ pyb "ab").
Proof.
  apply (buffer_invariant recorder json_loads_sample
           [ReadOk (pyb "{}" ++ [nl] ++ pyb "oo"); ReadOk [];
            ReadOk (pyb "ps" ++ [nl] ++ pyb "}")]
           (World [] tt) (World [Dispatched (PDict ∅)] tt) (pyb "}")
           (pyb "1" ++ [nl] ++ pyb "ab") (pyb "ab")
           (World [] tt) (World [Dispatched (PInt 1)] tt)).
  - reflexivity.
  - reflexivity.
Defined.

(* ------------------------------------------------------------------ *)
(** ** Malformed records *)

(** C3 (as amended).  In both readers a record on which [json.loads]
    raises [JSONDecodeError] (in the pipe reader also one that fails UTF-8
    decoding) is dropped: nothing is dispatched for it, nothing else
    changes, and the loop goes on.  So a run over an input with such a
    record inserted anywhere between the others is the run over the input
    without it: the valid records on either side are dispatched all the
    same. *)
Theorem malformed_record_tolerance {HS : Type}
    (handler : PyVal -> HS -> HS * result unit)
    (json_loads : pystr -> result PyVal)
    (lines_before lines_after : list stdin_read) (bad_line : pystr) (e : exn)
    (records : list bytes) (bad tail : bytes) (chunks chunks' : list bytes)
    (w : @world HS) :
  json_loads (strip bad_line) = Raise e ->
  is_JSONDecodeError e = true ->
  (decode_utf8 bad = None
   \/ (exists text e',
         decode_utf8 bad = Some text
         /\ json_loads text = Raise e'
         /\ is_JSONDecodeError e' = true)) ->
  nl ∉ bad ->
  Forall (fun r => nl ∉ r) records ->
  concat chunks = terminate_all records ++ bad ++ nl :: tail ->
  concat chunks' = terminate_all records ++ tail ->
  (forall w0, stdin_line handler json_loads bad_line w0 = (w0, Ok tt))
  /\ read_from_stdin handler json_loads
       (lines_before ++ Line bad_line :: lines_after) w
     = read_from_stdin handler json_loads (lines_before ++ lines_after) w
  /\ (forall w',
        read_from_stdin handler json_loads
          (lines_before ++ Line bad_line :: lines_after) w = (w', Ok tt) ->
        dispatched w'
        = dispatched w ++ omap (decode_read json_loads) lines_before
                       ++ omap (decode_read json_loads) lines_after)
  /\ (forall w0, pipe_record handler json_loads bad w0 = (w0, Ok tt))
  /\ outcome (pipe_loop handler json_loads (map ReadOk chunks) [] w)
     = outcome (pipe_loop handler json_loads (map ReadOk chunks') [] w)
  /\ (forall buffer w',
        pipe_loop handler json_loads (map ReadOk chunks) [] w
        = (buffer, w', Waiting) ->
        dispatched w'
        = dispatched w ++ omap (decode_record json_loads) records
                       ++ omap (decode_record json_loads) (frames tail).1).
Proof.
  intros Hjson He Hbad Hnl Hrecords Hchunks Hchunks'.
  assert (forall w0, stdin_line handler json_loads bad_line w0 = (w0, Ok tt))
    as Hline by (intros w0; by eapply stdin_line_skip).
  assert (forall w0, pipe_record handler json_loads bad w0 = (w0, Ok tt))
    as Hrec by (intros w0; by apply pipe_record_skip).
  assert (read_from_stdin handler json_loads
            (lines_before ++ Line bad_line :: lines_after) w
          = read_from_stdin handler json_loads (lines_before ++ lines_after) w)
    as Hstdin.
  { rewrite !read_from_stdin_app.
    destruct (read_from_stdin handler json_loads lines_before w)
      as [w1 [[]|e1]]; [|reflexivity].
    simpl. by rewrite Hline. }
  assert (outcome (pipe_loop handler json_loads (map ReadOk chunks) [] w)
          = outcome (pipe_loop handler json_loads (map ReadOk chunks') [] w))
    as Hpipe.
  { rewrite !pipe_loop_outcome, Hchunks, Hchunks'.
    rewrite !(frames_terminate_all _ _ Hrecords), (frames_cons_line _ _ Hnl).
    simpl. rewrite !process_records_app.
    destruct (process_records handler json_loads records w)
      as [w1 [[]|e1]]; [|reflexivity].
    simpl. by rewrite Hrec. }
  repeat split; try assumption.
  - intros w' Hrun. rewrite Hstdin in Hrun.
    apply read_from_stdin_dispatched in Hrun as (done & _ & Hdisp & Hall).
    by rewrite (Hall eq_refl), omap_app in Hdisp.
  - intros buffer w' Hrun.
    assert (outcome (pipe_loop handler json_loads (map ReadOk chunks) [] w)
            = (w', Waiting)) as Hout by (by rewrite Hrun).
    rewrite Hpipe, pipe_loop_outcome, Hchunks' in Hout.
    rewrite (frames_terminate_all _ _ Hrecords) in Hout. simpl in Hout.
    apply settle_waiting in Hout.
    apply process_records_dispatched in Hout as (done & _ & Hdisp & Hall).
    by rewrite (Hall eq_refl), omap_app in Hdisp.
Qed.

Lemma malformed_record_tolerance_witness :
  read_from_stdin recorder json_loads_sample
    ([Line (py "1" ++ [10])] ++ Line (py "oops" ++ [10])
     :: [Line (py "2" ++ [10])])
    (World [] tt)
  = (World [Dispatched (PInt 1); Dispatched (PInt 2)] tt, Ok tt)
  /\ outcome (pipe_loop recorder json_loads_sample
                (map ReadOk [pyb "1" ++ [nl] ++ pyb "oo";
                             pyb "ps" ++ [nl] ++ pyb "2" ++ [nl]])
                [] (World [] tt))
     = (World [Dispatched (PInt 1); Dispatched (PInt 2)] tt, Waiting).
Proof.
  destruct (malformed_record_tolerance recorder json_loads_sample
              [Line (py "1" ++ [10])] [Line (py "2" ++ [10])]
              (py "oops" ++ [10])
              (Exn JSONDecodeError
                 (py "Expecting value: line 1 column 1 (char 0)"))
              [pyb "1"] (pyb "oops") (pyb "2" ++ [nl])
              [pyb "1" ++ [nl] ++ pyb "oo"; pyb "ps" ++ [nl] ++ pyb "2" ++ [nl]]
              [pyb "1" ++ [nl] ++ pyb "2" ++ [nl]]
              (World [] tt))
    as (_ & Hstdin & _ & _ & Hpipe & _).
  - reflexivity.
  - reflexivity.
  - right. exists (py "oops"). eexists. repeat split; reflexivity.
  - apply has_nl_false. reflexivity.
  - repeat constructor. apply has_nl_false. reflexivity.
  - reflexivity.
  - reflexivity.
  - split.
    + etransitivity; [exact Hstdin | reflexivity].
    + etransitivity; [exact Hpipe | reflexivity].
Defined.

(** C3, as stated, fails: a line of a thousand opening brackets is not
    JSON, yet on it [json.loads] raises [RecursionError], which the
    [except] clauses for decode errors do not catch.  Between the valid
    lines [1] and [2] it ends both readers: [1] is dispatched, [2] is
    not. *)
Lemma deep_record_counterexample :
  decode_line json_loads_deep (deep_text ++ [10]) = None
  /\ decode_record json_loads_deep deep_bytes = None
  /\ read_from_stdin recorder json_loads_deep
       [Line (py "1" ++ [10]); Line (deep_text ++ [10]); Line (py "2" ++ [10])]
       (World [] tt)
     = (World [Dispatched (PInt 1)] tt,
        Raise (Exn RecursionError
                 (py "maximum recursion depth exceeded"
                  ++ py " while decoding a JSON array from a unicode string")))
  /\ outcome (pipe_loop recorder json_loads_deep
                [ReadOk (pyb "1" ++ [nl] ++ deep_bytes ++ [nl]
                         ++ pyb "2" ++ [nl])]
                [] (World [] tt))
     = (World [Dispatched (PInt 1);
               Printed (py "Pipe disconnected: "
                        ++ py "maximum recursion depth exceeded"
                        ++ py " while decoding a JSON array"
                        ++ py " from a unicode string")] tt,
        Returned).
Proof.
  repeat split; vm_compute; reflexivity.
Qed.

(* ------------------------------------------------------------------ *)
(** ** The handler contract *)




(** What line 66 does with an exception of the handler that is derived
    from [Exception]: the record [[]] decodes to a list, on which the
    reference handler raises [AttributeError]; the exception does not
    leave the loop: it is caught at line 66, printed as a pipe
    disconnect, and the function returns. *)
Lemma handler_exception_caught_counterexample :
  handle_event plain (PList []) []
  = ([], Raise (Exn AttributeError
                  (py "'list' object has no attribute 'get'")))
  /\ pipe_loop (handle_event plain) json_loads_sample
       [ReadOk (pyb "[]" ++ [nl])] [] (World [] [])
     = ([],
        World [Dispatched (PList []);
               Printed (py "Pipe disconnected: "
                        ++ py "'list' object has no attribute 'get'")]
              [],
        Returned).
Proof.
  split; reflexivity.
Qed.

(** C10.  In the Line-Stream Reader a [JSONDecodeError] raised by the
    handler itself is swallowed by the [except] of line 29: the handler
    has been called, no exception leaves, and the loop goes on with the
    next line. *)
Theorem handler_decode_error_swallowed {HS : Type}
    (handler : PyVal -> HS -> HS * result unit)
    (json_loads : pystr -> result PyVal)
    (line : pystr) (rest : list stdin_read) (event : PyVal) (w : @world HS)
    (hs : HS) (e : exn) :
  decode_line json_loads line = Some event ->
  handler event (hstate w) = (hs, Raise e) ->
  is_JSONDecodeError e = true ->
  stdin_line handler json_loads line w
  = (World (trace w ++ [Dispatched event]) hs, Ok tt)
  /\ read_from_stdin handler json_loads (Line line :: rest) w
     = read_from_stdin handler json_loads rest
         (World (trace w ++ [Dispatched event]) hs).
Proof.
  intros Hline Hraise He.
  assert (stdin_line handler json_loads line w
          = (World (trace w ++ [Dispatched event]) hs, Ok tt)) as Hstep.
  { rewrite (stdin_line_decoded _ _ _ _ _ _ _ Hline Hraise). simpl.
    by rewrite He. }
  split; [exact Hstep|]. simpl. by rewrite Hstep.
Qed.

Lemma handler_decode_error_swallowed_witness :
  stdin_line fussy json_loads_sample (py "1" ++ [10]) (World [] 0%nat)
  = (World [Dispatched (PInt 1)] 1%nat, Ok tt)
  /\ read_from_stdin fussy json_loads_sample
       [Line (py "1" ++ [10]); Line (py "{}" ++ [10])] (World [] 0%nat)
     = (World [Dispatched (PInt 1); Dispatched (PDict ∅)] 2%nat, Ok tt).
Proof.
  destruct (handler_decode_error_swallowed fussy json_loads_sample
              (py "1" ++ [10]) [Line (py "{}" ++ [10])] (PInt 1)
              (World [] 0%nat)
              1%nat
              (Exn JSONDecodeError (py "Extra data: line 1 column 2 (char 1)")))
    as [Hstep Hrun].
  - reflexivity.
  - reflexivity.
  - reflexivity.
  - split.
    + exact Hstep.
    + etransitivity; [exact Hrun | reflexivity].
Defined.

(* ------------------------------------------------------------------ *)
(** ** How the pipe loop ends *)




(* ------------------------------------------------------------------ *)
(** ** The two transports compared *)

Lemma json_space_isspace (s : pystr) :
  forallb json_space s = true -> forallb py_isspace s = true.
Proof.
  induction s as [|c t IH]; simpl; [reflexivity|].
  rewrite !andb_true_iff. intros [Hc Ht]. split; [|by apply IH].
  unfold json_space in Hc. rewrite !orb_true_iff, !N.eqb_eq in Hc.
  by destruct Hc as [[[-> | ->] | ->] | ->].
Qed.

(** The line that carries a padded record strips to its core. *)
Lemma strip_json_padded (lead core trail : pystr) :
  forallb json_space lead = true ->
  forallb json_space trail = true ->
  strip core = core ->
  strip ((lead ++ core ++ trail) ++ [10]) = core.
Proof.
  intros Hlead Htrail Hcore.
  rewrite <- Hcore at 2. rewrite <- !app_assoc.
  apply strip_padded; [by apply json_space_isspace|].
  rewrite forallb_app, (json_space_isspace _ Htrail). reflexivity.
Qed.

Section Transports.
Context {HS : Type}.
Variable handler : PyVal -> HS -> HS * result unit.
Variable json_loads : pystr -> result PyVal.

(** What the statement takes from the library: [json.loads] skips JSON
    whitespace around a text, rejects the empty text with a
    [JSONDecodeError], and does not raise [UnicodeDecodeError]. *)
Hypothesis json_skips_space :
  forall lead text trail,
    forallb json_space lead = true ->
    forallb json_space trail = true ->
    same_answer (json_loads (lead ++ text ++ trail)) (json_loads text).
Hypothesis json_rejects_empty :
  exists e, json_loads [] = Raise e /\ exn_cls e = JSONDecodeError.
Hypothesis json_no_unicode_error :
  forall text e, json_loads text = Raise e -> exn_cls e <> UnicodeDecodeError.
Hypothesis handler_no_unicode_error :
  forall event hs hs' e,
    handler event hs = (hs', Raise e) -> exn_cls e <> UnicodeDecodeError.

Lemma decode_error_same_class (e1 e2 : exn) :
  exn_cls e1 = exn_cls e2 ->
  exn_cls e1 <> UnicodeDecodeError ->
  is_decode_error e1 = is_JSONDecodeError e2.
Proof.
  unfold is_decode_error, is_JSONDecodeError. intros <- H.
  by destruct (exn_cls e1).
Qed.

(** On a padded record the two loop bodies leave the same world and end
    the same way. *)
Lemma line_record_step (record : pystr) (encoded : bytes) (w : @world HS) :
  decode_utf8 encoded = Some record ->
  json_padded record ->
  (stdin_line handler json_loads (record ++ [10]) w).1
  = (pipe_record handler json_loads encoded w).1
  /\ same_answer (stdin_line handler json_loads (record ++ [10]) w).2
                 (pipe_record handler json_loads encoded w).2.
Proof.
  intros Hdec (lead & core & trail & -> & Hlead & Htrail & Hcore).
  unfold stdin_line, pipe_record, pipe_try, stdin_try.
  rewrite (strip_json_padded _ _ _ Hlead Htrail Hcore), Hdec.
  pose proof (json_skips_space lead core trail Hlead Htrail) as Hsame.
  destruct core as [|c text].
  - destruct json_rejects_empty as (e0 & He0 & Hcls).
    rewrite He0 in Hsame.
    destruct (json_loads (lead ++ [] ++ trail)) as [v|e1]; [done|].
    simpl in Hsame. simpl.
    assert (is_decode_error e1 = true) as ->; [|done].
    unfold is_decode_error. by rewrite Hsame, Hcls.
  - destruct (json_loads (lead ++ (c :: text) ++ trail)) as [v1|e1] eqn:H1,
      (json_loads (c :: text)) as [v2|e2] eqn:H2; try done.
    + simpl in Hsame. subst v2. unfold dispatch, except_pass.
      destruct (handler v1 (hstate w)) as [hs [[]|e]] eqn:Hh; [done|].
      rewrite (decode_error_same_class e e eq_refl
                 (handler_no_unicode_error _ _ _ _ Hh)).
      by destruct (is_JSONDecodeError e).
    + simpl in Hsame. unfold except_pass.
      rewrite (decode_error_same_class e1 e2 Hsame
                 (json_no_unicode_error _ _ H1)).
      destruct (is_JSONDecodeError e2); simpl; [done | by split].
Qed.

Lemma lines_records_agree (records : list pystr) (encoded : list bytes) :
  Forall2 (fun bs r => decode_utf8 bs = Some r) encoded records ->
  Forall json_padded records ->
  forall w : @world HS,
    (read_from_stdin handler json_loads
       (map (fun r => Line (r ++ [10])) records) w).1
    = (process_records handler json_loads encoded w).1
    /\ same_answer
         (read_from_stdin handler json_loads
            (map (fun r => Line (r ++ [10])) records) w).2
         (process_records handler json_loads encoded w).2.
Proof.
  intros Hdec Hpadded.
  induction Hdec as [|bs r encoded records Hbs _ IH]; intros w;
    [done|].
  inversion Hpadded as [|? ? Hr Hrest]; subst. simpl.
  destruct (line_record_step r bs w Hbs Hr) as [Hw Hres].
  destruct (stdin_line handler json_loads (r ++ [10]) w) as [wa [[]|ea]],
    (pipe_record handler json_loads bs w) as [wb [[]|eb]];
    simpl in Hw, Hres; subst; try done.
  by apply IH.
Qed.
End Transports.

(** C6 (as amended).  Take records whose surrounding whitespace, if they
    have any, is JSON whitespace (space, tab, line feed, carriage
    return), and a handler that does not raise [UnicodeDecodeError].
    Delivering the records as newline-terminated lines to the Line-Stream
    Reader dispatches the same events, and leaves the handler in the same
    state, as delivering their UTF-8 encodings, each followed by a
    newline (the last one too), to the Framed-Pipe Reader under any
    chunking; and one run ends well exactly when the other does.
    [json.loads] is taken as the library has it: it skips JSON whitespace
    around a text, rejects the empty text with a [JSONDecodeError], and
    does not raise [UnicodeDecodeError]. *)
Theorem line_stream_equivalence {HS : Type}
    (handler : PyVal -> HS -> HS * result unit)
    (json_loads : pystr -> result PyVal)
    (records : list pystr) (encoded chunks : list bytes) (w : @world HS) :
  (forall lead text trail,
     forallb json_space lead = true ->
     forallb json_space trail = true ->
     same_answer (json_loads (lead ++ text ++ trail)) (json_loads text)) ->
  (exists e, json_loads [] = Raise e /\ exn_cls e = JSONDecodeError) ->
  (forall text e,
     json_loads text = Raise e -> exn_cls e <> UnicodeDecodeError) ->
  (forall event hs hs' e,
     handler event hs = (hs', Raise e) -> exn_cls e <> UnicodeDecodeError) ->
  Forall2 (fun bs r => decode_utf8 bs = Some r) encoded records ->
  Forall (fun bs => nl ∉ bs) encoded ->
  Forall json_padded records ->
  concat chunks = terminate_all encoded ->
  let a := read_from_stdin handler json_loads
             (map (fun r => Line (r ++ [10])) records) w in
  let b := pipe_loop handler json_loads (map ReadOk chunks) [] w in
  dispatched a.1 = dispatched b.1.2
  /\ hstate a.1 = hstate b.1.2
  /\ (a.2 = Ok tt <-> b.2 = Waiting).
Proof.
  intros Hpad Hempty Hjson Hhandler Hdec Hnl Hpadded Hconcat a b.
  pose proof (pipe_loop_outcome handler json_loads chunks w) as Hout.
  fold b in Hout. unfold outcome in Hout.
  rewrite Hconcat, <- (app_nil_r (terminate_all encoded)) in Hout.
  rewrite (frames_terminate_all _ _ Hnl) in Hout. simpl in Hout.
  rewrite app_nil_r in Hout.
  destruct (lines_records_agree handler json_loads Hpad Hempty Hjson
              Hhandler records encoded Hdec Hpadded w) as [Hw Hres].
  fold a in Hw, Hres.
  destruct a as [wa [[]|ea]], b as [[buffer wb] s],
    (process_records handler json_loads encoded w) as [wp [[]|ep]];
    simpl in *; subst; try done.
  - injection Hout as -> ->. by repeat split.
  - destruct (is_Exception ep); injection Hout as -> ->;
      rewrite ?dispatched_print; by repeat split.
Qed.

Lemma json_loads_padded_skips_space (lead text trail : pystr) :
  forallb json_space lead = true ->
  forallb json_space trail = true ->
  same_answer (json_loads_padded (lead ++ text ++ trail))
              (json_loads_padded text).
Proof.
  intros Hlead Htrail. unfold json_loads_padded.
  rewrite (strip_with_padded json_space _ _ _ Hlead Htrail).
  by destruct (json_loads_sample _).
Qed.

Lemma json_loads_padded_decode_error (text : pystr) (e : exn) :
  json_loads_padded text = Raise e -> exn_cls e = JSONDecodeError.
Proof.
  unfold json_loads_padded, json_loads_sample.
  destruct (lookup_sample _ json_samples); [discriminate|].
  by intros [= <-].
Qed.

Lemma line_stream_equivalence_witness :
  dispatched
    (read_from_stdin recorder json_loads_padded
       (map (fun r => Line (r ++ [10]))
            [py "1"; py "oops"; []; 32 :: py "{}" ++ [13]])
       (World [] tt)).1
  = [PInt 1; PDict ∅]
  /\ dispatched
       (pipe_loop recorder json_loads_padded
          (map ReadOk [pyb "1" ++ [nl] ++ pyb "oo"; pyb "ps" ++ [nl; nl];
                       pyb " {" ; pyb "}" ++ [x0d; nl]])
          [] (World [] tt)).1.2
     = [PInt 1; PDict ∅].
Proof.
  destruct (line_stream_equivalence recorder json_loads_padded
              [py "1"; py "oops"; []; 32 :: py "{}" ++ [13]]
              [pyb "1"; pyb "oops"; []; pyb " {}" ++ [x0d]]
              [pyb "1" ++ [nl] ++ pyb "oo"; pyb "ps" ++ [nl; nl];
               pyb " {" ; pyb "}" ++ [x0d; nl]]
              (World [] tt))
    as (Hsame & _ & _).
  - exact json_loads_padded_skips_space.
  - eexists. split; reflexivity.
  - intros text e He. rewrite (json_loads_padded_decode_error _ _ He).
    discriminate.
  - intros event hs hs' e. discriminate.
  - repeat constructor.
  - repeat constructor; apply has_nl_false; reflexivity.
  - repeat constructor.
    + exists [], (py "1"), []. by repeat split.
    + exists [], (py "oops"), []. by repeat split.
    + exists [], [], []. by repeat split.
    + exists [32], (py "{}"), [13]. by repeat split.
  - reflexivity.
  - split; [reflexivity|].
    etransitivity; [symmetry; exact Hsame | reflexivity].
Defined.

(** C6, as stated, fails.  The record [{}], delivered as a line, is
    dispatched by the Line-Stream Reader, while the newline-joined bytes
    of that one record hold no newline and the Framed-Pipe Reader
    dispatches nothing.  The record made of a no-break space followed by
    [{}] is dispatched by the Line-Stream Reader, which strips it, and is
    not JSON for the Framed-Pipe Reader, which does not strip, even with
    a newline after it.  And with a handler that raises
    [UnicodeDecodeError] on the event [1], the Line-Stream Reader stops
    at the record [1], while the Framed-Pipe Reader swallows the
    exception and dispatches the record [{}] after it. *)
Lemma line_stream_differs_counterexample :
  join_nl [pyb "{}"] = pyb "{}"
  /\ dispatched (read_from_stdin recorder json_loads_sample
                   [Line (py "{}" ++ [10])] (World [] tt)).1
     = [PDict ∅]
  /\ dispatched (pipe_loop recorder json_loads_sample
                   [ReadOk (join_nl [pyb "{}"])] [] (World [] tt)).1.2
     = []
  /\ decode_utf8 ([xc2; xa0] ++ pyb "{}") = Some (160 :: py "{}")
  /\ dispatched (read_from_stdin recorder json_loads_sample
                   [Line ((160 :: py "{}") ++ [10])] (World [] tt)).1
     = [PDict ∅]
  /\ dispatched (pipe_loop recorder json_loads_sample
                   [ReadOk ([xc2; xa0] ++ pyb "{}" ++ [nl])] []
                   (World [] tt)).1.2
     = []
  /\ dispatched (read_from_stdin touchy json_loads_sample
                   [Line (py "1" ++ [10]); Line (py "{}" ++ [10])]
                   (World [] 0%nat)).1
     = [PInt 1]
  /\ dispatched (pipe_loop touchy json_loads_sample
                   [ReadOk (pyb "1" ++ [nl] ++ pyb "{}" ++ [nl])] []
                   (World [] 0%nat)).1.2
     = [PInt 1; PDict ∅].
Proof.
  repeat split.
Qed.

(* ------------------------------------------------------------------ *)
(** ** The reference handler *)

(** The example scenario: the file save is printed with its extension,
    the directory change is filtered out. *)
Example handle_event_scenario :
  handle_event plain event_file_save []
  = ([py "[00:00:00.123] txt    C:\a.txt"], Ok tt)
  /\ handle_event plain event_directory
       [py "[00:00:00.123] txt    C:\a.txt"]
     = ([py "[00:00:00.123] txt    C:\a.txt"], Ok tt).
Proof.
  split; reflexivity.
Qed.

(** A file save whose name holds a lone surrogate gets as far as
    [print], which raises on a UTF-8 standard output: nothing is printed
    and the exception is the handler's. *)
Example handle_event_print_fails :
  exists e,
    exn_cls e = UnicodeEncodeError
    /\ handle_event utf8_stdout
         (PDict (<[py "fullPath" := PStr (py "a" ++ [55296] ++ py ".txt")]>
                   (<[py "reasons" := PList [PStr (py "CLOSE")]]> ∅)))
         []
       = ([], Raise e).
Proof.
  eexists. split; [|reflexivity]. reflexivity.
Qed.

(** C8.  For an event in which every field is absent, as in the event
    decoded from the record [{}], the handler's variables take the
    documented defaults: [reasons] is the empty list, the filename taken
    from [fullPath]/[fileName] is the empty string, [timestamp] is the
    empty string and [isDirectory] is [False]; the handler then prints
    nothing and returns. *)
Theorem default_field_policy (d : gmap (list N) PyVal)
    (rt : runtime) (out : list pystr) :
  d !! py "reasons" = None ->
  d !! py "fullPath" = None ->
  d !! py "fileName" = None ->
  d !! py "timestamp" = None ->
  d !! py "isDirectory" = None ->
  handle_event_locals (PDict d)
  = Ok {| reasons := PList []; filename := PStr [];
          timestamp := PStr []; is_dir := PBool false |}
  /\ handle_event rt (PDict d) out = (out, Ok tt).
Proof.
  intros Hreasons Hfull Hfile Htime Hdir.
  assert (handle_event_locals (PDict d)
          = Ok {| reasons := PList []; filename := PStr [];
                  timestamp := PStr []; is_dir := PBool false |}) as Hlocals.
  { unfold handle_event_locals, dict_get.
    rewrite Hreasons, Hfull, Hfile, Htime, Hdir. reflexivity. }
  split; [exact Hlocals|].
  unfold handle_event. rewrite Hlocals. reflexivity.
Qed.

Lemma default_field_policy_witness :
  handle_event_locals (PDict ∅)
  = Ok {| reasons := PList []; filename := PStr [];
          timestamp := PStr []; is_dir := PBool false |}
  /\ handle_event plain (PDict ∅) [] = ([], Ok tt).
Proof.
  apply (default_field_policy ∅ plain []); reflexivity.
Defined.

(** C9.  The handler always binds its variables when the event is a
    [dict].  Its filename is the [fullPath] field when that field is
    present and truthy; when [fullPath] is absent, [None], the empty
    string or any other falsy value, it is the [fileName] field, or the
    empty string when there is none.  So [fullPath = ""] with
    [fileName = "x"] gives the filename ["x"]. *)
Theorem filename_fallback (d : gmap (list N) PyVal) :
  exists l,
    handle_event_locals (PDict d) = Ok l
    /\ (forall v,
          d !! py "fullPath" = Some v -> truthy v = true -> filename l = v)
    /\ (d !! py "fullPath" = None
        \/ d !! py "fullPath" = Some PNone
        \/ d !! py "fullPath" = Some (PStr [])
        \/ (exists v, d !! py "fullPath" = Some v /\ truthy v = false) ->
        filename l = default (PStr []) (d !! py "fileName"))
    /\ (d !! py "fullPath" = Some (PStr []) ->
        d !! py "fileName" = Some (PStr (py "x")) ->
        filename l = PStr (py "x")).
Proof.
  unfold handle_event_locals, dict_get. simpl.
  destruct (d !! py "fullPath") as [v|] eqn:Hfull; simpl.
  - destruct (truthy v) eqn:Hv; simpl; eexists; (split; [reflexivity|]);
      simpl.
    + split; [by intros ? [= <-] _|].
      split.
      * intros [H | [[= ->] | [[= ->] | (v' & [= <-] & H)]]];
          try discriminate; congruence.
      * intros [= ->]. discriminate.
    + split; [intros ? [= <-]; congruence|].
      split; [reflexivity|].
      by intros _ ->.
  - eexists. split; [reflexivity|]. simpl.
    split; [discriminate|].
    split; [reflexivity | discriminate].
Qed.

Lemma filename_fallback_witness :
  exists l,
    handle_event_locals
      (PDict (<[py "fullPath" := PStr []]>
                (<[py "fileName" := PStr (py "x")]> ∅))) = Ok l
    /\ filename l = PStr (py "x").
Proof.
  destruct (filename_fallback
              (<[py "fullPath" := PStr []]>
                 (<[py "fileName" := PStr (py "x")]> ∅)))
    as (l & Hl & _ & _ & Hx).
  exists l. split; [exact Hl|].
  apply Hx; reflexivity.
Defined.

(* ------------------------------------------------------------------ *)
(** ** Further properties of the Framed-Pipe Reader *)

Lemma omap_length_le {A B : Type} (f : A -> option B) (l : list A) :
  (length (omap f l) <= length l)%nat.
Proof.
  induction l as [|a t IH]; [simpl; lia|].
  change (omap f (a :: t))
    with (match f a with Some b => b :: omap f t | None => omap f t end).
  destruct (f a); simpl; lia.
Qed.

(** There are as many complete records as newline bytes. *)
Lemma frames_records_count (bs : bytes) :
  length (frames bs).1 = count_nl bs.
Proof.
  unfold count_nl. induction bs as [|b t IH]; simpl; [reflexivity|].
  destruct (frames t) as [records rest]. simpl in IH.
  destruct (is_nl b); simpl; [by rewrite IH|].
  destruct records; simpl in *; assumption.
Qed.

(** X1.  What the Framed-Pipe Reader does depends on the bytes received,
    not on how the reads cut them: two chunk sequences with the same
    concatenation give the same handler calls, the same handler state,
    the same printed lines and the same way of ending, also when an
    exception ends the loop; and when the loop is back at [ReadFile] the
    buffers are the same too. *)
Theorem chunking_independence {HS : Type}
    (handler : PyVal -> HS -> HS * result unit)
    (json_loads : pystr -> result PyVal)
    (chunks1 chunks2 : list bytes) (w : @world HS) :
  concat chunks1 = concat chunks2 ->
  outcome (pipe_loop handler json_loads (map ReadOk chunks1) [] w)
  = outcome (pipe_loop handler json_loads (map ReadOk chunks2) [] w)
  /\ ((pipe_loop handler json_loads (map ReadOk chunks1) [] w).2 = Waiting ->
      pipe_loop handler json_loads (map ReadOk chunks1) [] w
      = pipe_loop handler json_loads (map ReadOk chunks2) [] w).
Proof.
  intros Hsame.
  assert (outcome (pipe_loop handler json_loads (map ReadOk chunks1) [] w)
          = outcome (pipe_loop handler json_loads (map ReadOk chunks2) [] w))
    as Hout by (by rewrite !pipe_loop_outcome, Hsame).
  split; [exact Hout|].
  destruct (pipe_loop handler json_loads (map ReadOk chunks1) [] w)
    as [[b1 w1] s1] eqn:Hrun1.
  destruct (pipe_loop handler json_loads (map ReadOk chunks2) [] w)
    as [[b2 w2] s2] eqn:Hrun2.
  unfold outcome in Hout. simpl in *. injection Hout as <- <-.
  intros ->.
  apply pipe_loop_chunks in Hrun1 as [_ Hb1]; [|apply not_elem_of_nil].
  apply pipe_loop_chunks in Hrun2 as [_ Hb2]; [|apply not_elem_of_nil].
  simpl in Hb1, Hb2.
  by rewrite (Hb1 eq_refl), (Hb2 eq_refl), Hsame.
Qed.

Lemma chunking_independence_witness :
  pipe_loop recorder json_loads_sample
    (map ReadOk [pyb "1"; [nl] ++ pyb "{"; pyb "}" ++ [nl] ++ pyb "nu"])
    [] (World [] tt)
  = pipe_loop recorder json_loads_sample
      (map ReadOk [pyb "1" ++ [nl] ++ pyb "{}" ++ [nl] ++ pyb "nu"])
      [] (World [] tt).
Proof.
  apply (chunking_independence recorder json_loads_sample
           [pyb "1"; [nl] ++ pyb "{"; pyb "}" ++ [nl] ++ pyb "nu"]
           [pyb "1" ++ [nl] ++ pyb "{}" ++ [nl] ++ pyb "nu"]
           (World [] tt)).
  - reflexivity.
  - reflexivity.
Defined.

(** X2.  As long as no newline byte has arrived, the Framed-Pipe Reader
    calls neither [json.loads] nor the handler and prints nothing: it
    only accumulates, and the buffer is everything received so far,
    however long. *)
Theorem no_newline_only_accumulates {HS : Type}
    (handler : PyVal -> HS -> HS * result unit)
    (json_loads : pystr -> result PyVal)
    (chunks : list bytes) (w : @world HS) :
  nl ∉ concat chunks ->
  pipe_loop handler json_loads (map ReadOk chunks) [] w
  = (concat chunks, w, Waiting).
Proof.
  intros Hnl.
  destruct (pipe_loop handler json_loads (map ReadOk chunks) [] w)
    as [[buffer w'] s] eqn:Hrun.
  apply pipe_loop_chunks in Hrun as [Hsettle Hbuf]; [|apply not_elem_of_nil].
  simpl in Hsettle, Hbuf. rewrite (frames_no_nl _ Hnl) in Hsettle, Hbuf.
  simpl in Hsettle, Hbuf. injection Hsettle as <- <-.
  by rewrite (Hbuf eq_refl).
Qed.

Lemma no_newline_only_accumulates_witness :
  pipe_loop (handle_event plain) json_loads_sample
    (map ReadOk [pyb "[]"; pyb "{}"; []; pyb "1"]) [] (World [] [])
  = (pyb "[]{}1", World [] [], Waiting).
Proof.
  apply (no_newline_only_accumulates (handle_event plain)
           json_loads_sample [pyb "[]"; pyb "{}"; []; pyb "1"] (World [] [])).
  apply has_nl_false. reflexivity.
Defined.

(** X3.  The handler is called at most once per newline byte received by
    the Framed-Pipe Reader, and at most once per line read by the
    Line-Stream Reader. *)
Theorem dispatch_count_bounds {HS : Type}
    (handler : PyVal -> HS -> HS * result unit)
    (json_loads : pystr -> result PyVal)
    (chunks : list bytes) (lines : list stdin_read) (w : @world HS) :
  (length (dispatched
             (pipe_loop handler json_loads (map ReadOk chunks) [] w).1.2)
   <= length (dispatched w) + count_nl (concat chunks))%nat
  /\ (length (dispatched (read_from_stdin handler json_loads lines w).1)
      <= length (dispatched w) + length lines)%nat.
Proof.
  split.
  - destruct (pipe_loop_dispatched handler json_loads chunks w)
      as (done & Hpre & -> & _).
    rewrite length_app, <- frames_records_count.
    pose proof (omap_length_le (decode_record json_loads) done).
    pose proof (prefix_length _ _ Hpre). lia.
  - destruct (read_from_stdin handler json_loads lines w) as [w' r] eqn:Hrun.
    apply read_from_stdin_dispatched in Hrun as (done & Hpre & Hdisp & _).
    simpl. rewrite Hdisp, length_app.
    pose proof (omap_length_le (decode_read json_loads) done).
    pose proof (prefix_length _ _ Hpre). lia.
Qed.

(* ------------------------------------------------------------------ *)
(** ** Further properties of the Line-Stream Reader *)

(** X4.  The Line-Stream Reader skips a line made only of whitespace (an
    empty line included) without consulting [json.loads] or the handler:
    whatever those two would do, the line leaves no mark, and a run with
    such a line inserted anywhere is the run without it. *)
Theorem blank_line_skipped {HS : Type}
    (handler : PyVal -> HS -> HS * result unit)
    (json_loads : pystr -> result PyVal)
    (blank : pystr) (before after : list stdin_read) (w : @world HS) :
  forallb py_isspace blank = true ->
  (forall w0, stdin_line handler json_loads blank w0 = (w0, Ok tt))
  /\ read_from_stdin handler json_loads (before ++ Line blank :: after) w
     = read_from_stdin handler json_loads (before ++ after) w.
Proof.
  intros Hblank.
  assert (forall w0, stdin_line handler json_loads blank w0 = (w0, Ok tt))
    as Hskip.
  { intros w0. unfold stdin_line.
    assert (strip blank = []) as ->; [|reflexivity].
    unfold strip. by rewrite (drop_leading_all _ _ Hblank). }
  split; [exact Hskip|].
  rewrite !read_from_stdin_app.
  destruct (read_from_stdin handler json_loads before w) as [w1 [[]|e]];
    [|reflexivity].
  simpl. by rewrite Hskip.
Qed.

Lemma blank_line_skipped_witness :
  read_from_stdin recorder json_loads_sample
    ([Line (py "1" ++ [10])] ++ Line [32; 9; 13; 10]
     :: [Line (py "2" ++ [10])])
    (World [] tt)
  = (World [Dispatched (PInt 1); Dispatched (PInt 2)] tt, Ok tt).
Proof.
  destruct (blank_line_skipped recorder json_loads_sample
              [32; 9; 13; 10] [Line (py "1" ++ [10])] [Line (py "2" ++ [10])]
              (World [] tt))
    as [_ Hrun].
  - reflexivity.
  - etransitivity; [exact Hrun | reflexivity].
Defined.

(** X5.  Whitespace before and after the text of a line makes no
    difference to the Line-Stream Reader: [json.loads] gets the text
    without it, and the line is handled as the bare text would be. *)
Theorem surrounding_whitespace_ignored {HS : Type}
    (handler : PyVal -> HS -> HS * result unit)
    (json_loads : pystr -> result PyVal)
    (lead text trail : pystr) (w : @world HS) :
  forallb py_isspace lead = true ->
  forallb py_isspace trail = true ->
  stdin_line handler json_loads (lead ++ text ++ trail) w
  = stdin_line handler json_loads text w
  /\ decode_line json_loads (lead ++ text ++ trail)
     = decode_line json_loads text.
Proof.
  intros Hlead Htrail. unfold stdin_line, decode_line.
  by rewrite (strip_padded _ _ _ Hlead Htrail).
Qed.

Lemma surrounding_whitespace_ignored_witness :
  stdin_line recorder json_loads_sample
    ([32; 160] ++ py "{}" ++ [13; 10]) (World [] tt)
  = (World [Dispatched (PDict ∅)] tt, Ok tt).
Proof.
  destruct (surrounding_whitespace_ignored recorder json_loads_sample
              [32; 160] (py "{}") [13; 10] (World [] tt)) as [Hstep _].
  - reflexivity.
  - reflexivity.
  - etransitivity; [exact Hstep | reflexivity].
Defined.

(** X6.  An exception leaves the Line-Stream Reader in one of two ways.
    Either the iteration over standard input raised it, and then it
    leaves whatever its class, the iteration being outside the [try].  Or
    [json.loads] or the handler raised it on one line, and then it is not
    a [JSONDecodeError].  Either way what came before was handled to the
    end, what comes after is not read, and the world is as the last step
    left it. *)
Theorem stdin_escaping_exception {HS : Type}
    (handler : PyVal -> HS -> HS * result unit)
    (json_loads : pystr -> result PyVal)
    (reads : list stdin_read) (w w' : @world HS) (e : exn) :
  read_from_stdin handler json_loads reads w = (w', Raise e) ->
  exists before after w0,
    read_from_stdin handler json_loads before w = (w0, Ok tt)
    /\ ((reads = before ++ StdinRaise e :: after /\ w' = w0)
        \/ (exists line,
              reads = before ++ Line line :: after
              /\ stdin_try handler json_loads (strip line) w0
                 = (w', Raise e)
              /\ is_JSONDecodeError e = false)).
Proof.
  revert w. induction reads as [|[line|e0] rest IH]; intros w; simpl;
    [discriminate | |].
  - destruct (stdin_line handler json_loads line w)
      as [w1 [[]|e1]] eqn:Hline.
    + intros Hrest. apply IH in Hrest as (before & after & w0 & Hbefore & H).
      exists (Line line :: before), after, w0.
      split; [simpl; by rewrite Hline|].
      destruct H as [[-> ->] | (l & -> & Htry & He)]; [by left|].
      right. by exists l.
    + intros [= <- <-].
      unfold stdin_line, except_pass in Hline.
      destruct (strip line) as [|c text] eqn:Hstrip; [discriminate|].
      destruct (stdin_try handler json_loads (c :: text) w)
        as [w2 [[]|e2]] eqn:Htry; [discriminate|].
      destruct (is_JSONDecodeError e2) eqn:He2; [discriminate|].
      injection Hline as <- <-.
      exists [], rest, w. split; [reflexivity|].
      right. exists line. by rewrite Hstrip.
  - intros [= <- <-]. exists [], rest, w. split; [reflexivity|]. by left.
Qed.

Lemma stdin_escaping_exception_witness :
  exists before after w0,
    read_from_stdin (handle_event plain) json_loads_sample before
      (World [] [])
    = (w0, Ok tt)
    /\ (([Line (py "{}" ++ [10]); Line (py "[]" ++ [10]);
          Line (py "{}" ++ [10])]
         = before
           ++ StdinRaise (Exn AttributeError
                            (py "'list' object has no attribute 'get'"))
           :: after
         /\ World [Dispatched (PDict ∅); Dispatched (PList [])] [] = w0)
        \/ (exists line,
              [Line (py "{}" ++ [10]); Line (py "[]" ++ [10]);
               Line (py "{}" ++ [10])]
              = before ++ Line line :: after
              /\ stdin_try (handle_event plain) json_loads_sample
                   (strip line) w0
                 = (World [Dispatched (PDict ∅); Dispatched (PList [])] [],
                    Raise (Exn AttributeError
                             (py "'list' object has no attribute 'get'")))
              /\ is_JSONDecodeError
                   (Exn AttributeError
                      (py "'list' object has no attribute 'get'"))
                 = false)).
Proof.
  apply (stdin_escaping_exception (handle_event plain) json_loads_sample
           [Line (py "{}" ++ [10]); Line (py "[]" ++ [10]);
            Line (py "{}" ++ [10])]
           (World [] [])).
  reflexivity.
Defined.

(** When the iteration itself fails, as on bytes that are not in the
    encoding of standard input, the exception leaves the reader and the
    lines after it are not read. *)
Example stdin_read_failure :
  read_from_stdin recorder json_loads_sample
    [Line (py "1" ++ [10]);
     StdinRaise (Exn UnicodeDecodeError
                   (py "'utf-8' codec can't decode byte 0xff in position 0: "
                    ++ py "invalid start byte"));
     Line (py "2" ++ [10])]
    (World [] tt)
  = (World [Dispatched (PInt 1)] tt,
     Raise (Exn UnicodeDecodeError
              (py "'utf-8' codec can't decode byte 0xff in position 0: "
               ++ py "invalid start byte"))).
Proof.
  reflexivity.
Qed.

(* ------------------------------------------------------------------ *)
(** ** What a pipe session prints *)

Section Traces.
Context {HS : Type}.
Variable handler : PyVal -> HS -> HS * result unit.
Variable json_loads : pystr -> result PyVal.



End Traces.



(* ------------------------------------------------------------------ *)
(** ** Further properties of the reference handler *)

Section AfterLast.
Context {A : Type}.
Variable p : A -> bool.

Lemma after_last_clean (l : list A) : has p (after_last p l) = false.
Proof.
  induction l as [|a t IH]; simpl; [reflexivity|].
  destruct (has p t) eqn:Ht; [exact IH|].
  destruct (p a) eqn:Ha; [exact Ht|].
  unfold has in *. simpl. by rewrite Ha, Ht.
Qed.

Lemma after_last_split (l : list A) :
  has p l = true ->
  exists stem c, l = stem ++ c :: after_last p l /\ p c = true.
Proof.
  induction l as [|a t IH]; [discriminate|].
  unfold has. simpl. fold (has p t).
  destruct (has p t) eqn:Ht.
  - intros _. destruct (IH eq_refl) as (stem & c & Hl & Hc).
    exists (a :: stem), c. split; [|exact Hc].
    simpl. by rewrite <- Hl.
  - rewrite orb_false_r. intros Ha. rewrite Ha.
    by exists [], a.
Qed.

Lemma after_last_none (l : list A) : has p l = false -> after_last p l = l.
Proof.
  destruct l as [|a t]; [reflexivity|].
  unfold has. simpl. fold (has p t).
  intros H. apply orb_false_iff in H as [Ha Ht].
  by rewrite Ht, Ha.
Qed.
End AfterLast.

Lemma has_code_point (c : N) (s : pystr) :
  has (N.eqb c) s = true <-> c ∈ s.
Proof.
  unfold has. induction s as [|b t IH]; simpl.
  - split; [discriminate | intros H; inversion H].
  - rewrite orb_true_iff, IH, N.eqb_eq, elem_of_cons. tauto.
Qed.

(** ['.' in filename] on a [str] looks for the one code point. *)
Lemma is_substring_single (c : N) (s : pystr) :
  is_substring [c] s = has (N.eqb c) s.
Proof.
  unfold has. induction s as [|b t IH]; simpl; [reflexivity|].
  by rewrite IH, andb_true_r.
Qed.

(** ['CLOSE' in reasons] on a [list] looks for the string itself. *)
Lemma str_in_list (needle : pystr) (l : list PyVal) :
  existsb (fun x => match x with
                    | PStr t => pystr_eqb t needle
                    | _ => false
                    end) l = true
  <-> PStr needle ∈ l.
Proof.
  induction l as [|x t IH]; simpl.
  - split; [discriminate | intros H; inversion H].
  - rewrite orb_true_iff, IH, elem_of_cons.
    split; intros [H|H]; auto; left.
    + destruct x; try discriminate.
      unfold pystr_eqb in H. apply bool_decide_eq_true in H. by subst.
    + subst x. unfold pystr_eqb. by apply bool_decide_eq_true.
Qed.

(** What the handler does is a function of the four variables it
    binds. *)
Lemma handle_event_same_locals (rt : runtime)
    (event1 event2 : PyVal) (out : list pystr) :
  handle_event_locals event1 = handle_event_locals event2 ->
  handle_event rt event1 out = handle_event rt event2 out.
Proof.
  intros H. unfold handle_event. by rewrite H.
Qed.

(** X9.  An event whose [reasons] list does not hold the string
    ["CLOSE"], or whose [isDirectory] is truthy, is filtered out: the
    handler prints nothing and returns normally, whatever the types of
    its path and timestamp fields. *)
Theorem handle_event_filters (rt : runtime) (event : PyVal)
    (l : locals) (rs : list PyVal) (out : list pystr) :
  handle_event_locals event = Ok l ->
  reasons l = PList rs ->
  PStr (py "CLOSE") ∉ rs \/ truthy (is_dir l) = true ->
  handle_event rt event out = (out, Ok tt).
Proof.
  intros Hl Hrs Hfilter. unfold handle_event. rewrite Hl. simpl.
  unfold handle_event_output. rewrite Hrs. simpl.
  destruct (existsb _ rs) eqn:Hclose; [|reflexivity].
  destruct Hfilter as [Hno | Hdir].
  - apply str_in_list in Hclose. contradiction.
  - by rewrite Hdir.
Qed.

Lemma handle_event_filters_witness :
  handle_event plain
    (PDict (<[py "timestamp" := PInt 7]>
              (<[py "isDirectory" := PInt 1]>
                 (<[py "reasons" := PList [PStr (py "CLOSE")]]> ∅))))
    [py "earlier"]
  = ([py "earlier"], Ok tt).
Proof.
  apply (handle_event_filters plain _
           {| reasons := PList [PStr (py "CLOSE")]; filename := PStr [];
              timestamp := PInt 7; is_dir := PInt 1 |}
           [PStr (py "CLOSE")]).
  - reflexivity.
  - reflexivity.
  - right. reflexivity.
Defined.

(** X10.  For a file save (a [reasons] list holding ["CLOSE"], a falsy
    [isDirectory]) whose filename and timestamp are strings, the handler
    gets as far as [print] with the one line
    "[" time "] " extension-field " " filename: when standard output
    takes it, that line is printed and the handler returns; when [print]
    raises, nothing is printed and that exception is the handler's.  The
    time is characters 11 to 22 of the timestamp (fewer, or none, when it
    is shorter).  The extension is what follows the last dot of the
    filename and holds no dot; it is empty when the filename has no dot;
    its field is padded with spaces to six characters. *)
Theorem handle_event_prints (rt : runtime) (event : PyVal)
    (l : locals) (rs : list PyVal) (f t : pystr) (out : list pystr) :
  handle_event_locals event = Ok l ->
  reasons l = PList rs ->
  PStr (py "CLOSE") ∈ rs ->
  truthy (is_dir l) = false ->
  filename l = PStr f ->
  timestamp l = PStr t ->
  exists ext,
    handle_event rt event out
    = (let line := py "[" ++ take 12 (drop 11 t) ++ py "] "
                   ++ ext ++ repeat 32 (6 - length ext)%nat ++ py " " ++ f in
       match stdout_write rt line with
       | Ok _ => (out ++ [line], Ok tt)
       | Raise e => (out, Raise e)
       end)
    /\ (46 ∉ ext)
    /\ (46 ∈ f -> exists stem, f = stem ++ 46 :: ext)
    /\ (46 ∉ f -> ext = []).
Proof.
  intros Hl Hrs Hclose Hdir Hf Ht.
  unfold handle_event. rewrite Hl. simpl.
  unfold handle_event_output. rewrite Hrs, Hf, Ht. simpl.
  rewrite (proj2 (str_in_list _ _) Hclose), Hdir. simpl.
  change (py ".") with [46]. rewrite is_substring_single.
  destruct (has (N.eqb 46) f) eqn:Hdot; simpl.
  - exists (after_last (N.eqb 46) f).
    split; [unfold ljust6; cbv zeta; by rewrite <- !app_assoc|].
    split.
    + intros Hin. apply has_code_point in Hin.
      by rewrite after_last_clean in Hin.
    + split.
      * intros _.
        destruct (after_last_split _ _ Hdot) as (stem & c & Hsplit & Hc).
        apply N.eqb_eq in Hc. subst c. by exists stem.
      * intros Hno. apply has_code_point in Hdot. contradiction.
  - exists []. split; [reflexivity|].
    split; [apply not_elem_of_nil|].
    split; [|done].
    intros Hin. apply has_code_point in Hin. congruence.
Qed.

Lemma handle_event_prints_witness :
  exists ext,
    handle_event plain event_file_save []
    = ([] ++ [py "[" ++ take 12 (drop 11 (py "2024-01-01T00:00:00.1234567Z"))
              ++ py "] " ++ ext ++ repeat 32 (6 - length ext)%nat ++ py " "
              ++ py "C:\a.txt"],
       Ok tt)
    /\ (46 ∉ ext)
    /\ (46 ∈ py "C:\a.txt" -> exists stem, py "C:\a.txt" = stem ++ 46 :: ext)
    /\ (46 ∉ py "C:\a.txt" -> ext = []).
Proof.
  apply (handle_event_prints plain event_file_save
           {| reasons := PList [PStr (py "CLOSE")];
              filename := PStr (py "C:\a.txt");
              timestamp := PStr (py "2024-01-01T00:00:00.1234567Z");
              is_dir := PBool false |}
           [PStr (py "CLOSE")]).
  - reflexivity.
  - reflexivity.
  - apply list_elem_of_here.
  - reflexivity.
  - reflexivity.
  - reflexivity.
Defined.

Ltac distinct_keys :=
  let H := fresh in intros H; vm_compute in H; discriminate H.

(** X11.  A field the handler does not know is ignored: adding it to an
    event, with any value, changes neither the variables the handler
    binds nor what it prints or raises. *)
Theorem unknown_field_ignored (rt : runtime)
    (d : gmap (list N) PyVal) (key : list N) (v : PyVal)
    (out : list pystr) :
  key <> py "reasons" ->
  key <> py "fullPath" ->
  key <> py "fileName" ->
  key <> py "timestamp" ->
  key <> py "isDirectory" ->
  handle_event_locals (PDict (<[key := v]> d)) = handle_event_locals (PDict d)
  /\ handle_event rt (PDict (<[key := v]> d)) out
     = handle_event rt (PDict d) out.
Proof.
  intros H1 H2 H3 H4 H5.
  assert (handle_event_locals (PDict (<[key := v]> d))
          = handle_event_locals (PDict d)) as Hlocals.
  { unfold handle_event_locals, dict_get.
    by rewrite !lookup_insert_ne. }
  split; [exact Hlocals | by apply handle_event_same_locals].
Qed.

Lemma unknown_field_ignored_witness :
  handle_event plain
    (PDict (<[py "usn" := PInt 42]> ∅)) []
  = handle_event plain (PDict ∅) [].
Proof.
  apply (unknown_field_ignored plain ∅ (py "usn") (PInt 42) []);
    distinct_keys.
Defined.

(** X12.  When [fullPath] is present and truthy, the [fileName] field
    plays no part: setting it to any value leaves what the handler does
    unchanged. *)
Theorem full_path_takes_precedence (rt : runtime)
    (d : gmap (list N) PyVal) (path v : PyVal) (out : list pystr) :
  d !! py "fullPath" = Some path ->
  truthy path = true ->
  handle_event rt (PDict (<[py "fileName" := v]> d)) out
  = handle_event rt (PDict d) out.
Proof.
  intros Hpath Htruthy. apply handle_event_same_locals.
  unfold handle_event_locals, dict_get.
  rewrite (lookup_insert_ne _ (py "fileName") (py "reasons"))
    by distinct_keys.
  rewrite (lookup_insert_ne _ (py "fileName") (py "fullPath"))
    by distinct_keys.
  rewrite (lookup_insert_ne _ (py "fileName") (py "timestamp"))
    by distinct_keys.
  rewrite (lookup_insert_ne _ (py "fileName") (py "isDirectory"))
    by distinct_keys.
  rewrite Hpath. simpl. by rewrite Htruthy.
Qed.

Lemma full_path_takes_precedence_witness :
  handle_event plain
    (PDict (<[py "fileName" := PStr (py "other.log")]>
              (<[py "fullPath" := PStr (py "C:\a.txt")]>
                 (<[py "reasons" := PList [PStr (py "CLOSE")]]> ∅))))
    []
  = ([py "[] txt    C:\a.txt"], Ok tt).
Proof.
  etransitivity.
  - apply (full_path_takes_precedence plain
             (<[py "fullPath" := PStr (py "C:\a.txt")]>
                (<[py "reasons" := PList [PStr (py "CLOSE")]]> ∅))
             (PStr (py "C:\a.txt")) (PStr (py "other.log")) []).
    + reflexivity.
    + reflexivity.
  - reflexivity.
Defined.



(** X15.  The default for [reasons] applies to a missing key only.  When
    the key is present with a value that is no container ([null], a
    boolean, a number), the membership test of line 83 raises
    [TypeError]: the handler prints nothing and the exception goes to the
    reader, directory or not. *)
Theorem reasons_not_a_container (rt : runtime)
    (d : gmap (list N) PyVal) (v : PyVal) (out : list pystr) :
  d !! py "reasons" = Some v ->
  match v with
  | PNone | PBool _ | PInt _ | PFloat _ => True
  | PStr _ | PList _ | PDict _ => False
  end ->
  exists e,
    exn_cls e = TypeError
    /\ handle_event rt (PDict d) out = (out, Raise e).
Proof.
  intros Hreasons Hkind.
  unfold handle_event, handle_event_locals, dict_get. rewrite Hreasons.
  simpl.
  destruct (truthy (default PNone (d !! py "fullPath"))); simpl;
    unfold handle_event_output; simpl;
    destruct v; try contradiction;
    (eexists; split; [|reflexivity]; reflexivity).
Qed.

Lemma reasons_not_a_container_witness :
  exists e,
    exn_cls e = TypeError
    /\ handle_event plain
         (PDict (<[py "isDirectory" := PBool true]>
                   (<[py "reasons" := PNone]> ∅))) []
       = ([], Raise e).
Proof.
  apply (reasons_not_a_container plain
           (<[py "isDirectory" := PBool true]> (<[py "reasons" := PNone]> ∅))
           PNone []).
  - reflexivity.
  - exact I.
Defined.


(* ------------------------------------------------------------------ *)
(** ** The entry point *)

(** X14.  The script reads from the pipe exactly when its first
    command-line argument is [--pipe]: arguments after the first are not
    looked at, and [--pipe] anywhere else selects nothing.  With it,
    standard input is never read; without it, the pipe is never opened. *)
Theorem main_selects_reader {HS : Type}
    (handler : PyVal -> HS -> HS * result unit)
    (json_loads : pystr -> result PyVal)
    (argv : list pystr) (imported opened : result unit)
    (reads : list read_result) (lines : list stdin_read) (w : @world HS) :
  (pipe_selected argv = true
   <-> exists prog more, argv = prog :: py "--pipe" :: more)
  /\ (pipe_selected argv = true ->
      main handler json_loads argv imported opened reads lines w
      = RanPipe (read_from_named_pipe handler json_loads
                   imported opened reads w))
  /\ (pipe_selected argv = false ->
      main handler json_loads argv imported opened reads lines w
      = RanStdin (read_from_stdin handler json_loads lines w)).
Proof.
  split.
  - unfold pipe_selected. destruct argv as [|prog [|arg more]]; simpl.
    + split; [discriminate | by intros (? & ? & ?)].
    + split; [discriminate | by intros (? & ? & ?)].
    + unfold pystr_eqb. rewrite bool_decide_eq_true. split.
      * intros ->. by exists prog, more.
      * by intros (? & ? & [= _ -> _]).
  - unfold main. split; by intros ->.
Qed.

Lemma main_selects_reader_witness :
  main recorder json_loads_sample
    [py "watch_stream.py"; py "--pipe"; py "-v"] (Ok tt) (Ok tt)
    [ReadOk (pyb "1" ++ [nl])] [Line (py "2" ++ [10])] (World [] tt)
  = RanPipe (read_from_named_pipe recorder json_loads_sample (Ok tt) (Ok tt)
               [ReadOk (pyb "1" ++ [nl])] (World [] tt))
  /\ main recorder json_loads_sample
       [py "watch_stream.py"; py "-v"; py "--pipe"] (Ok tt) (Ok tt)
       [ReadOk (pyb "1" ++ [nl])] [Line (py "2" ++ [10])] (World [] tt)
     = RanStdin (read_from_stdin recorder json_loads_sample
                   [Line (py "2" ++ [10])] (World [] tt)).
Proof.
  split.
  - apply (main_selects_reader recorder json_loads_sample
             [py "watch_stream.py"; py "--pipe"; py "-v"]).
    reflexivity.
  - apply (main_selects_reader recorder json_loads_sample
             [py "watch_stream.py"; py "-v"; py "--pipe"]).
    reflexivity.
Defined.
